(** * Message relay: classification, duplicate store and dispatch

    A shallow embedding of [script3.py]: the duplicate store
    [message_store] (a Python dict from message text to admission time),
    the matchers [remove_spaces], [contains_stop_words] and [is_similar],
    the expiry sweep [remove_old_messages], the per-message handler
    [new_message_handler] with its [try]/[except] boundary, and
    [validate_config].

    Conventions.
    - A Python [str] is a list of Unicode code points ([list N]).
    - [datetime] values are integers counting microseconds; a [timedelta]
      is a difference of two of them.
    - [str.lower] and [rapidfuzz.fuzz.ratio] are library functions: the
      development is parametric in them ([lower], [ratio]); concrete
      instances ([ascii_lower], [indel_ratio]) are used for evaluation.
    - The handler is a computation over a [world] (store, clock ticks and
      the trace of observable actions) that may raise an exception. *)

From Stdlib Require Import ZArith QArith List Bool Lia String Ascii.
From stdpp Require Import base option list gmap fin_maps fin_sets.

Local Open Scope Z_scope.

(** ** Text *)

Abbreviation text := (list N).

(** [str s] is the text of an ASCII literal. *)
Definition str (s : string) : text :=
  List.map N_of_ascii (list_ascii_of_string s).

(** [text.replace(" ", "")]: every U+0020 is deleted, nothing else. *)
Definition remove_spaces (t : text) : text :=
  List.filter (fun c => negb (c =? 32)%N) t.

(** Python's [needle in hay] on strings. *)
Fixpoint startswith (needle hay : text) : bool :=
  match needle, hay with
  | [], _ => true
  | _ :: _, [] => false
  | a :: needle', b :: hay' => (a =? b)%N && startswith needle' hay'
  end.

Fixpoint str_in (needle hay : text) : bool :=
  startswith needle hay ||
  match hay with
  | [] => false
  | _ :: hay' => str_in needle hay'
  end.

(** The characters Python's [str.isspace] accepts. *)
Definition isspace (c : N) : bool :=
  existsb (N.eqb c)
    [9; 10; 11; 12; 13; 28; 29; 30; 31; 32; 133; 160; 5760; 8192; 8193;
     8194; 8195; 8196; 8197; 8198; 8199; 8200; 8201; 8202; 8232; 8233;
     8239; 8287; 12288]%N.

(** ** Concrete instances of the library functions *)

(** [str.lower] on the ASCII letters; other code points are kept. *)
Definition ascii_lower_char (c : N) : N :=
  if ((65 <=? c) && (c <=? 90))%N then (c + 32)%N else c.

Definition ascii_lower (t : text) : text := List.map ascii_lower_char t.

(** Length of a longest common subsequence. *)
Fixpoint lcs (a b : text) : nat :=
  match a with
  | [] => O
  | x :: a' =>
      (fix lcs_row (b : text) : nat :=
         match b with
         | [] => O
         | y :: b' =>
             if (x =? y)%N then S (lcs a' b')
             else Nat.max (lcs a' b) (lcs_row b')
         end) b
  end.

(** [fuzz.ratio]: the normalized InDel similarity, in percent:
    [100 * (1 - (|a| + |b| - 2 lcs) / (|a| + |b|))], and 100 for two
    empty strings. *)
Definition indel_ratio (a b : text) : Q :=
  match (length a + length b)%nat with
  | O => 100%Q
  | S n => Qmake (200 * Z.of_nat (lcs a b)) (Pos.of_succ_nat n)
  end.

(** ** Telegram events, destinations and observable actions *)

Record event := Event {
  chat_id : Z;
  message_text : option text   (* [event.message.text]: a str or None *)
}.

(** Which configured chat a forward is addressed to. *)
Inductive destination := ToDESTINATION | ToSTOP_WORDS_DESTINATION.

Inductive exception :=
| ValueError (var_name : string)
| TransportError (cause : string)
| ImportError (name : string)
| TypeError (message : string)
| AttributeError (message : string)
| ClientError (message : string).

Inductive log_message :=
| LogReceived (chat : Z)
| LogNoText
| LogStopWords
| LogSimilar
| LogForwarded (t : text)
| LogNoKeyWords
| LogError (ex : exception).

Inductive action :=
| Log (time : Z) (m : log_message)
| Forward (d : destination) (ev : event)
| Sleep (seconds : Z).

#[global] Instance destination_eq_dec : EqDecision destination.
Proof. solve_decision. Defined.

(** ** The world the handler runs in *)

(** What one handler invocation reads from outside: the successive
    readings of [datetime.now()] and whether [client.forward_messages]
    raises. *)
Record env := Env {
  clock : nat -> Z;
  forward_raises : option exception
}.

Record world := World {
  message_store : gmap text Z;
  ticks : nat;
  trace : list action
}.

(** A computation ends normally ([inr]) or by an exception ([inl]); the
    world keeps the effects made before the exception. *)
Definition proc (A : Type) : Type := world -> (exception + A) * world.

Definition ret {A} (a : A) : proc A := fun w => (inr a, w).

Definition bind {A B} (m : proc A) (k : A -> proc B) : proc B :=
  fun w =>
    match m w with
    | (inr a, w') => k a w'
    | (inl ex, w') => (inl ex, w')
    end.

Definition try_except {A} (body : proc A) (handler : exception -> proc A)
  : proc A :=
  fun w =>
    match body w with
    | (inr a, w') => (inr a, w')
    | (inl ex, w') => handler ex w'
    end.

Declare Scope proc_scope.
Delimit Scope proc_scope with proc.
Notation "x <- m ;; k" := (bind m (fun x => k))
  (at level 100, m at next level, right associativity) : proc_scope.
Notation "m ;; k" := (bind m (fun _ => k))
  (at level 100, right associativity) : proc_scope.

Definition get_store : proc (gmap text Z) :=
  fun w => (inr (message_store w), w).

Definition put_store (s : gmap text Z) : proc unit :=
  fun w => (inr tt, World s (ticks w) (trace w)).

(** [message_store[key] = value]. *)
Definition set_item (key : text) (value : Z) : proc unit :=
  fun w =>
    (inr tt, World (<[key := value]> (message_store w)) (ticks w) (trace w)).

Definition emit (a : action) : proc unit :=
  fun w => (inr tt, World (message_store w) (ticks w) (trace w ++ [a])).

Definition datetime_now (e : env) : proc Z :=
  fun w =>
    (inr (clock e (ticks w)), World (message_store w) (S (ticks w)) (trace w)).

Definition asyncio_sleep (seconds : Z) : proc unit := emit (Sleep seconds).

Definition forward_messages (e : env) (d : destination) (ev : event)
  : proc unit :=
  fun w =>
    let w' := World (message_store w) (ticks w) (trace w ++ [Forward d ev]) in
    match forward_raises e with
    | Some ex => (inl ex, w')
    | None => (inr tt, w')
    end.

Definition log_with_time (e : env) (m : log_message) : proc unit :=
  (current_time <- datetime_now e ;; emit (Log current_time m))%proc.

(** ** Constants *)

(** [timedelta(days=1)] in microseconds. *)
Definition FILTER_DURATION : Z := 86400 * 1000000.

Definition SIMILARITY_THRESHOLD : Q := 90%Q.

(** ** The duplicate store *)

(** The keys collected by the list comprehension of
    [remove_old_messages]. *)
Definition to_remove (store : gmap text Z) (current_time : Z) : list text :=
  (List.filter
     (fun '(msg, timestamp) => current_time - timestamp >? FILTER_DURATION)
     (map_to_list store)).*1.

(** [for msg in to_remove: del message_store[msg]]. *)
Definition delete_all (msgs : list text) (store : gmap text Z) : gmap text Z :=
  foldr delete store msgs.

Definition sweep (store : gmap text Z) (current_time : Z) : gmap text Z :=
  delete_all (to_remove store current_time) store.

Definition remove_old_messages (e : env) : proc unit :=
  (current_time <- datetime_now e ;;
   store <- get_store ;;
   put_store (sweep store current_time))%proc.

(** ** Configuration *)

(** The values [config.py] may give a scalar setting. *)
Inductive pyvalue :=
| PyNone
| PyInt (n : Z)
| PyStr (s : text)
| PyInts (l : list Z)
| PyStrs (l : list text).

(** Python truthiness: [not v] is [negb (truthy v)]. *)
Definition truthy (v : pyvalue) : bool :=
  match v with
  | PyNone => false
  | PyInt n => negb (n =? 0)
  | PyStr s => negb (Nat.eqb (length s) 0)
  | PyInts l => negb (Nat.eqb (length l) 0)
  | PyStrs l => negb (Nat.eqb (length l) 0)
  end.

(** The globals of the module once it has loaded: the names imported
    from [config]. The two word lists are iterated with [word.lower()]
    when the module is loaded, so they are lists of strings here; what
    happens for other values is in [load_module]. *)
Record config := Config {
  API_ID : pyvalue;
  API_HASH : pyvalue;
  SESSION : pyvalue;
  DESTINATION : pyvalue;
  STOP_WORDS_DESTINATION : pyvalue;
  CHATS : pyvalue;
  KEY_WORDS : list text;
  STOP_WORDS : list text
}.

Definition required_globals (c : config) : list (string * pyvalue) :=
  [ ("API_ID", API_ID c);
    ("API_HASH", API_HASH c);
    ("SESSION", SESSION c);
    ("DESTINATION", DESTINATION c);
    ("STOP_WORDS_DESTINATION", STOP_WORDS_DESTINATION c);
    ("CHATS", CHATS c);
    ("KEY_WORDS", PyStrs (KEY_WORDS c));
    ("STOP_WORDS", PyStrs (STOP_WORDS c)) ]%string.

(** The loop of [validate_config]: the first falsy value raises. *)
Fixpoint check_globals (items : list (string * pyvalue))
  : exception + unit :=
  match items with
  | [] => inr tt
  | (var_name, var_value) :: items' =>
      if negb (truthy var_value) then inl (ValueError var_name)
      else check_globals items'
  end.

Definition validate_config (c : config) : exception + unit :=
  check_globals (required_globals c).

(** Membership in the short traces a delivery produces. *)
Ltac trace_mem :=
  repeat match goal with
         | H : _ ∈ [] |- _ => apply elem_of_nil in H; destruct H
         | H : _ ∈ _ :: _ |- _ =>
             apply elem_of_cons in H; destruct H as [H|H]; try discriminate H
         end.

(** ** Matchers, handler and dispatch *)

Section Relay.

(** [str.lower] and [fuzz.ratio]. *)
Variable lower : text -> text.
Variable ratio : text -> text -> Q.

Variable cfg : config.

Definition STOP_WORDS_SET : gset text :=
  list_to_set (lower <$> STOP_WORDS cfg).

Definition KEY_WORDS_SET : gset text :=
  list_to_set (lower <$> KEY_WORDS cfg).

Definition is_similar (store : gmap text Z) (message_text : text) : bool :=
  existsb
    (fun stored_message =>
       Qle_bool SIMILARITY_THRESHOLD (ratio stored_message message_text))
    (map_to_list store).*1.

Definition contains_stop_words (message_text : text) : bool :=
  let clean_message_text := remove_spaces (lower message_text) in
  existsb
    (fun stop_word => str_in (remove_spaces stop_word) clean_message_text)
    (elements STOP_WORDS_SET).

(** The [any(...)] over [KEY_WORDS_SET] inside the handler. *)
Definition contains_key_words (message_text : text) : bool :=
  let clean_message_text := remove_spaces (lower message_text) in
  existsb
    (fun key_word => str_in (remove_spaces key_word) clean_message_text)
    (elements KEY_WORDS_SET).

(** [not event.message.text]: None and the empty string are falsy. *)
Definition no_text (ev : event) : bool :=
  match message_text ev with
  | None => true
  | Some t => Nat.eqb (length t) 0
  end.

Definition text_of (ev : event) : text := default [] (message_text ev).

(** The body of the [try] block. *)
Definition handler_body (e : env) (ev : event) : proc unit :=
  (log_with_time e (LogReceived (chat_id ev)) ;;
   if no_text ev then log_with_time e LogNoText
   else
     remove_old_messages e ;;
     if contains_stop_words (text_of ev) then
       forward_messages e ToSTOP_WORDS_DESTINATION ev ;;
       log_with_time e LogStopWords
     else
       store <- get_store ;;
       if is_similar store (text_of ev) then log_with_time e LogSimilar
       else if contains_key_words (text_of ev) then
         now <- datetime_now e ;;
         set_item (text_of ev) now ;;
         forward_messages e ToDESTINATION ev ;;
         log_with_time e (LogForwarded (text_of ev)) ;;
         asyncio_sleep 2
       else log_with_time e LogNoKeyWords)%proc.

Definition new_message_handler (e : env) (ev : event) : proc unit :=
  try_except (handler_body e ev)
    (fun ex => log_with_time e (LogError ex) ;; asyncio_sleep 60)%proc.

(** One delivery of an event to the handler: the handler starts with
    the current store, its own clock readings and an empty trace. *)
Definition dispatch (e : env) (ev : event) (store : gmap text Z)
  : (exception + unit) * gmap text Z * list action :=
  let '(r, w) := new_message_handler e ev (World store 0 []) in
  (r, message_store w, trace w).

Definition store_after (e : env) (ev : event) (store : gmap text Z)
  : gmap text Z := (dispatch e ev store).1.2.

Definition trace_of (e : env) (ev : event) (store : gmap text Z)
  : list action := (dispatch e ev store).2.

(** [run_until_disconnected]: the events are delivered one after the
    other; an exception leaving a handler ends the run. *)
Fixpoint run_until_disconnected (inputs : list (env * event))
    (store : gmap text Z) : (exception + unit) * gmap text Z * list action :=
  match inputs with
  | [] => (inr tt, store, [])
  | (e, ev) :: inputs' =>
      match dispatch e ev store with
      | (inr _, store', tr) =>
          let '(r, store'', tr') := run_until_disconnected inputs' store' in
          (r, store'', tr ++ tr')
      | (inl ex, store', tr) => (inl ex, store', tr)
      end
  end.

(** [main]: the client is started and runs until it is disconnected; the
    store is the empty dict the module created. *)
Definition main (inputs : list (env * event))
  : (exception + unit) * gmap text Z * list action :=
  run_until_disconnected inputs ∅.

(** What one delivery does, branch by branch. *)
Definition dispatch_result (e : env) (ev : event) (store : gmap text Z)
  : (exception + unit) * gmap text Z * list action :=
  let received := Log (clock e 0) (LogReceived (chat_id ev)) in
  if no_text ev then
    (inr tt, store, [received; Log (clock e 1) LogNoText])
  else
    let swept := sweep store (clock e 1) in
    if contains_stop_words (text_of ev) then
      match forward_raises e with
      | None =>
          (inr tt, swept,
           [received; Forward ToSTOP_WORDS_DESTINATION ev;
            Log (clock e 2) LogStopWords])
      | Some ex =>
          (inr tt, swept,
           [received; Forward ToSTOP_WORDS_DESTINATION ev;
            Log (clock e 2) (LogError ex); Sleep 60])
      end
    else if is_similar swept (text_of ev) then
      (inr tt, swept, [received; Log (clock e 2) LogSimilar])
    else if contains_key_words (text_of ev) then
      let admitted := <[text_of ev := clock e 2]> swept in
      match forward_raises e with
      | None =>
          (inr tt, admitted,
           [received; Forward ToDESTINATION ev;
            Log (clock e 3) (LogForwarded (text_of ev)); Sleep 2])
      | Some ex =>
          (inr tt, admitted,
           [received; Forward ToDESTINATION ev;
            Log (clock e 3) (LogError ex); Sleep 60])
      end
    else (inr tt, swept, [received; Log (clock e 2) LogNoKeyWords]).

(** * Properties *)

(** ** The duplicate store *)

Lemma lookup_delete_all (msgs : list text) (store : gmap text Z) (k : text) :
  delete_all msgs store !! k = if decide (k ∈ msgs) then None else store !! k.
Proof.
  induction msgs as [|m msgs IH]; simpl.
  - reflexivity.
  - rewrite lookup_delete. destruct (decide (m = k)) as [->|Hne].
    + rewrite decide_True by left. reflexivity.
    + rewrite IH. destruct (decide (k ∈ msgs)) as [Hin|Hnin].
      * rewrite decide_True by (right; exact Hin). reflexivity.
      * rewrite decide_False; [reflexivity|].
        intros Hk. apply elem_of_cons in Hk as [Hk|Hk]; congruence.
Qed.

Lemma elem_of_to_remove (store : gmap text Z) (now : Z) (k : text) :
  k ∈ to_remove store now ↔
  ∃ ts, store !! k = Some ts ∧ now - ts > FILTER_DURATION.
Proof.
  unfold to_remove. rewrite list_elem_of_fmap. split.
  - intros [[k' ts] [-> Hin]]. simpl.
    apply list_elem_of_In, filter_In in Hin as [Hin Hold].
    apply list_elem_of_In, elem_of_map_to_list in Hin.
    exists ts. split; [exact Hin|]. apply Z.gtb_gt in Hold. exact Hold.
  - intros (ts & Hk & Hold). exists (k, ts). split; [reflexivity|].
    apply list_elem_of_In, filter_In. split.
    + apply list_elem_of_In, elem_of_map_to_list. exact Hk.
    + apply Z.gtb_gt. exact Hold.
Qed.

(** The sweep keeps an entry exactly when it is not older than the
    retention period. *)
Lemma lookup_sweep (store : gmap text Z) (now : Z) (k : text) (ts : Z) :
  sweep store now !! k = Some ts ↔
  store !! k = Some ts ∧ now - ts <= FILTER_DURATION.
Proof.
  unfold sweep. rewrite lookup_delete_all.
  destruct (decide (k ∈ to_remove store now)) as [Hin|Hnin].
  - apply elem_of_to_remove in Hin as (ts' & Hk & Hold).
    split; [discriminate|]. intros [Hk' Hle]. rewrite Hk in Hk'.
    injection Hk' as ->. lia.
  - split.
    + intros Hk. split; [exact Hk|].
      destruct (Z_le_gt_dec (now - ts) FILTER_DURATION) as [Hle|Hgt];
        [exact Hle|].
      exfalso. apply Hnin, elem_of_to_remove. exists ts. split; assumption.
    + intros [Hk _]. exact Hk.
Qed.

Lemma sweep_subseteq (store : gmap text Z) (now : Z) :
  sweep store now ⊆ store.
Proof.
  apply map_subseteq_spec. intros k ts Hk.
  apply lookup_sweep in Hk as [Hk _]. exact Hk.
Qed.

Lemma lookup_sweep_None (store : gmap text Z) (now : Z) (k : text) (ts : Z) :
  store !! k = Some ts → now - ts > FILTER_DURATION →
  sweep store now !! k = None.
Proof.
  intros Hk Hold. destruct (sweep store now !! k) as [ts'|] eqn:E;
    [|reflexivity].
  apply lookup_sweep in E as [Hk' Hle]. rewrite Hk in Hk'.
  injection Hk' as ->. lia.
Qed.

Lemma is_similar_true (store : gmap text Z) (t : text) :
  is_similar store t = true ↔
  ∃ k ts, store !! k = Some ts ∧ (SIMILARITY_THRESHOLD <= ratio k t)%Q.
Proof.
  unfold is_similar. rewrite existsb_exists. split.
  - intros (k & Hin & Hle). apply list_elem_of_In, list_elem_of_fmap in Hin.
    destruct Hin as ([k' ts] & -> & Hin). simpl in *.
    apply elem_of_map_to_list in Hin. apply Qle_bool_iff in Hle. eauto.
  - intros (k & ts & Hk & Hle). exists k. split.
    + apply list_elem_of_In, list_elem_of_fmap. exists (k, ts).
      split; [reflexivity|]. apply elem_of_map_to_list. exact Hk.
    + apply Qle_bool_iff. exact Hle.
Qed.

Lemma is_similar_false (store : gmap text Z) (t : text) :
  is_similar store t = false ↔
  ∀ k ts, store !! k = Some ts → (ratio k t < SIMILARITY_THRESHOLD)%Q.
Proof.
  split.
  - intros Hf k ts Hk. apply Qnot_le_lt. intros Hle.
    assert (is_similar store t = true) as Ht
      by (apply is_similar_true; eauto).
    congruence.
  - intros Hall. apply not_true_is_false. intros Ht.
    apply is_similar_true in Ht as (k & ts & Hk & Hle).
    apply (Qlt_not_le _ _ (Hall k ts Hk)). exact Hle.
Qed.

Lemma dispatch_unfold (e : env) (ev : event) (store : gmap text Z) :
  dispatch e ev store = dispatch_result e ev store.
Proof.
  unfold dispatch, dispatch_result, new_message_handler,
    handler_body, try_except, bind, log_with_time, remove_old_messages,
    forward_messages, asyncio_sleep, datetime_now, emit, get_store,
    put_store, set_item.
  simpl.
  destruct (no_text ev); simpl; [reflexivity|].
  destruct (contains_stop_words (text_of ev)); simpl.
  - destruct (forward_raises e); reflexivity.
  - destruct (is_similar _ _); simpl; [reflexivity|].
    destruct (contains_key_words (text_of ev)); simpl; [|reflexivity].
    destruct (forward_raises e); reflexivity.
Qed.

Lemma store_after_unfold (e : env) (ev : event) (store : gmap text Z) :
  store_after e ev store = (dispatch_result e ev store).1.2.
Proof. unfold store_after. rewrite dispatch_unfold. reflexivity. Qed.

Lemma trace_of_unfold (e : env) (ev : event) (store : gmap text Z) :
  trace_of e ev store = (dispatch_result e ev store).2.
Proof. unfold trace_of. rewrite dispatch_unfold. reflexivity. Qed.

(** Case analysis on the branch a delivery takes. *)
Ltac branches e ev store :=
  rewrite ?store_after_unfold, ?trace_of_unfold in *;
  unfold dispatch_result in *;
  destruct (no_text ev) eqn:Hnotext;
  [|destruct (contains_stop_words (text_of ev)) eqn:Hstop;
    [destruct (forward_raises e) eqn:Hraise
    |destruct (is_similar (sweep store (clock e 1)) (text_of ev)) eqn:Hsim;
     [|destruct (contains_key_words (text_of ev)) eqn:Hkey;
       [destruct (forward_raises e) eqn:Hraise|]]]];
  simpl in *.

(** ** The pipeline *)

(** C1. A message with text that contains a stop word (by the matcher
    [contains_stop_words]) is forwarded to the stop-words destination,
    whatever the key words and the store say: the trace is the stop
    branch's, it has no forward to the primary destination, it is the
    same for every store (the store is not consulted), and the store is
    only swept: the message is not added. *)
Theorem stop_words_take_precedence
    (e : env) (ev : event) (store : gmap text Z) :
  no_text ev = false →
  contains_stop_words (text_of ev) = true →
  trace_of e ev store =
    Log (clock e 0) (LogReceived (chat_id ev))
    :: Forward ToSTOP_WORDS_DESTINATION ev
    :: match forward_raises e with
       | None => [Log (clock e 2) LogStopWords]
       | Some ex => [Log (clock e 2) (LogError ex); Sleep 60]
       end
  ∧ (∀ ev', Forward ToDESTINATION ev' ∉ trace_of e ev store)
  ∧ (∀ store', trace_of e ev store' = trace_of e ev store)
  ∧ store_after e ev store = sweep store (clock e 1)
  ∧ store_after e ev store ⊆ store.
Proof.
  intros Hnt Hsw.
  assert (∀ s, dispatch_result e ev s =
    (inr tt, sweep s (clock e 1),
     Log (clock e 0) (LogReceived (chat_id ev))
     :: Forward ToSTOP_WORDS_DESTINATION ev
     :: match forward_raises e with
        | None => [Log (clock e 2) LogStopWords]
        | Some ex => [Log (clock e 2) (LogError ex); Sleep 60]
        end)) as Hres.
  { intros s. unfold dispatch_result. rewrite Hnt, Hsw.
    destruct (forward_raises e); reflexivity. }
  rewrite store_after_unfold, trace_of_unfold, Hres. simpl.
  repeat split.
  - intros ev' Hin. destruct (forward_raises e); trace_mem.
  - intros store'. rewrite trace_of_unfold, Hres. reflexivity.
  - apply sweep_subseteq.
Qed.

(** C2. A message with text and without stop word is dropped as a
    duplicate exactly when some entry retained by the sweep has a ratio of
    at least 90 (inclusive) against the raw text of the message; the stored
    keys are the raw texts of admitted messages. *)
Theorem duplicate_drop_iff (e : env) (ev : event) (store : gmap text Z) :
  no_text ev = false →
  contains_stop_words (text_of ev) = false →
  trace_of e ev store =
    [Log (clock e 0) (LogReceived (chat_id ev)); Log (clock e 2) LogSimilar]
  ↔ ∃ stored ts,
      sweep store (clock e 1) !! stored = Some ts
      ∧ (90 <= ratio stored (text_of ev))%Q.
Proof.
  intros Hnt Hsw. rewrite <- is_similar_true.
  rewrite trace_of_unfold. unfold dispatch_result. rewrite Hnt, Hsw.
  destruct (is_similar (sweep store (clock e 1)) (text_of ev)).
  - split; reflexivity.
  - destruct (contains_key_words (text_of ev));
      [destruct (forward_raises e)|]; simpl; split; intros H; discriminate H.
Qed.

(** C3. The sweep keeps exactly the entries not older than the retention
    period; a delivery without text does not sweep, a delivery with text
    sweeps once, with the clock reading taken before the similarity check;
    an entry admitted at [T] makes a similar message a duplicate at
    [T + 23h59m] and no longer prevents its admission at [T + 24h01m]. *)
Theorem expiry_sweep_window (store : gmap text Z) (k : text) (T : Z) :
  store !! k = Some T →
  (∀ now k' ts,
     sweep store now !! k' = Some ts ↔
     store !! k' = Some ts ∧ ¬ ts < now - FILTER_DURATION)
  ∧ (∀ e ev, no_text ev = true → store_after e ev store = store)
  ∧ (∀ e ev k', no_text ev = false → k' ≠ text_of ev →
       store_after e ev store !! k' = sweep store (clock e 1) !! k')
  ∧ (∀ e ev,
       no_text ev = false →
       contains_stop_words (text_of ev) = false →
       (90 <= ratio k (text_of ev))%Q →
       clock e 1 = T + 1439 * 60000000 →
       trace_of e ev store =
         [Log (clock e 0) (LogReceived (chat_id ev));
          Log (clock e 2) LogSimilar])
  ∧ (∀ e ev,
       no_text ev = false →
       contains_stop_words (text_of ev) = false →
       contains_key_words (text_of ev) = true →
       clock e 1 = T + 1441 * 60000000 →
       (∀ k' ts, k' ≠ k → sweep store (clock e 1) !! k' = Some ts →
                 (ratio k' (text_of ev) < 90)%Q) →
       store_after e ev store =
         <[text_of ev := clock e 2]> (sweep store (clock e 1))
       ∧ Forward ToDESTINATION ev ∈ trace_of e ev store).
Proof.
  intros Hk. split; [|split; [|split; [|split]]].
  - intros now k' ts. rewrite lookup_sweep.
    split; intros [H1 H2]; (split; [exact H1|lia]).
  - intros e ev Hnt. rewrite store_after_unfold. unfold dispatch_result.
    rewrite Hnt. reflexivity.
  - intros e ev k' Hnt Hne. branches e ev store; try discriminate;
      try reflexivity; rewrite lookup_insert_ne by congruence; reflexivity.
  - intros e ev Hnt Hsw Hle Hclock.
    assert (is_similar (sweep store (clock e 1)) (text_of ev) = true) as Hs.
    { apply is_similar_true. exists k, T. split; [|exact Hle].
      apply lookup_sweep. split; [exact Hk|]. rewrite Hclock.
      unfold FILTER_DURATION. lia. }
    rewrite trace_of_unfold. unfold dispatch_result.
    rewrite Hnt, Hsw, Hs. reflexivity.
  - intros e ev Hnt Hsw Hkw Hclock Hothers.
    assert (is_similar (sweep store (clock e 1)) (text_of ev) = false) as Hs.
    { apply is_similar_false. intros k' ts Hk'.
      destruct (decide (k' = k)) as [->|Hne]; [|eauto].
      rewrite (lookup_sweep_None store (clock e 1) k T) in Hk';
        [discriminate|exact Hk|].
      rewrite Hclock. unfold FILTER_DURATION. lia. }
    rewrite store_after_unfold, trace_of_unfold. unfold dispatch_result.
    rewrite Hnt, Hsw, Hs, Hkw.
    destruct (forward_raises e); simpl; (split; [reflexivity|]);
      apply elem_of_cons; right; apply elem_of_cons; left; reflexivity.
Qed.

(** C6. A delivery leaves the store as it is (no text), or only swept
    (stop word, duplicate, no key word), or swept and extended by the
    message text at the admission reading of the clock (key-word branch,
    the one that forwards to the primary destination). Without a forward
    to the primary destination every entry of the resulting store is an
    entry of the store before, with its timestamp. *)
Theorem store_gains_only_on_admission
    (e : env) (ev : event) (store : gmap text Z) :
  ((no_text ev = true ∧ store_after e ev store = store)
   ∨ (no_text ev = false
      ∧ store_after e ev store = sweep store (clock e 1)
      ∧ ∀ ev', Forward ToDESTINATION ev' ∉ trace_of e ev store)
   ∨ (no_text ev = false
      ∧ contains_stop_words (text_of ev) = false
      ∧ is_similar (sweep store (clock e 1)) (text_of ev) = false
      ∧ contains_key_words (text_of ev) = true
      ∧ store_after e ev store =
          <[text_of ev := clock e 2]> (sweep store (clock e 1))
      ∧ Forward ToDESTINATION ev ∈ trace_of e ev store))
  ∧ ((∀ ev', Forward ToDESTINATION ev' ∉ trace_of e ev store) →
     store_after e ev store ⊆ store).
Proof.
  split.
  - branches e ev store.
    + left. split; reflexivity.
    + right; left. repeat split. intros ev' Hin. trace_mem.
    + right; left. repeat split. intros ev' Hin. trace_mem.
    + right; left. repeat split. intros ev' Hin. trace_mem.
    + right; right. repeat split.
      apply elem_of_cons; right; apply elem_of_cons; left; reflexivity.
    + right; right. repeat split.
      apply elem_of_cons; right; apply elem_of_cons; left; reflexivity.
    + right; left. repeat split. intros ev' Hin. trace_mem.
  - intros Hno. branches e ev store;
      try reflexivity; try apply sweep_subseteq;
      exfalso; apply (Hno ev);
      apply elem_of_cons; right; apply elem_of_cons; left; reflexivity.
Qed.

(** ** The failure boundary *)

Definition is_forward (a : action) : bool :=
  match a with
  | Forward _ _ => true
  | _ => false
  end.

Definition forwards (tr : list action) : nat :=
  length (List.filter is_forward tr).

Lemma forwards_app (tr tr' : list action) :
  forwards (tr ++ tr') = (forwards tr + forwards tr')%nat.
Proof. unfold forwards. rewrite List.filter_app, length_app. reflexivity. Qed.

Lemma handler_returns (e : env) (ev : event) (w : world) :
  (new_message_handler e ev w).1 = inr tt.
Proof.
  unfold new_message_handler, handler_body, try_except, bind, log_with_time,
    remove_old_messages, forward_messages, asyncio_sleep, datetime_now, emit,
    get_store, put_store, set_item.
  simpl.
  destruct (no_text ev); simpl; [reflexivity|].
  destruct (contains_stop_words (text_of ev)); simpl.
  - destruct (forward_raises e); reflexivity.
  - destruct (is_similar _ _); simpl; [reflexivity|].
    destruct (contains_key_words (text_of ev)); simpl; [|reflexivity].
    destruct (forward_raises e); reflexivity.
Qed.

Lemma dispatch_returns (e : env) (ev : event) (store : gmap text Z) :
  (dispatch e ev store).1.1 = inr tt.
Proof.
  unfold dispatch. pose proof (handler_returns e ev (World store 0 [])) as H.
  destruct (new_message_handler e ev (World store 0 [])) as [r w].
  exact H.
Qed.

Lemma run_cons (e : env) (ev : event) (inputs : list (env * event))
    (store : gmap text Z) :
  run_until_disconnected ((e, ev) :: inputs) store =
  let rest := run_until_disconnected inputs (store_after e ev store) in
  (rest.1.1, rest.1.2, trace_of e ev store ++ rest.2).
Proof.
  unfold store_after, trace_of. simpl.
  pose proof (dispatch_returns e ev store) as H.
  destruct (dispatch e ev store) as [[r store'] tr]. simpl in *. subst r.
  destruct (run_until_disconnected inputs store') as [[r store''] tr'].
  reflexivity.
Qed.

Lemma run_returns (inputs : list (env * event)) (store : gmap text Z) :
  (run_until_disconnected inputs store).1.1 = inr tt.
Proof.
  revert store. induction inputs as [|[e ev] inputs IH]; intros store.
  - reflexivity.
  - rewrite run_cons. simpl. apply IH.
Qed.

Lemma forwards_delivery (e : env) (ev : event) (store : gmap text Z) :
  (forwards (trace_of e ev store) <= 1)%nat.
Proof.
  rewrite trace_of_unfold. unfold dispatch_result, forwards.
  destruct (no_text ev); [simpl; lia|].
  destruct (contains_stop_words (text_of ev)).
  - destruct (forward_raises e); simpl; lia.
  - destruct (is_similar _ _); [simpl; lia|].
    destruct (contains_key_words (text_of ev)); [|simpl; lia].
    destruct (forward_raises e); simpl; lia.
Qed.

Lemma forwards_run (inputs : list (env * event)) (store : gmap text Z) :
  (forwards (run_until_disconnected inputs store).2 <= length inputs)%nat.
Proof.
  revert store. induction inputs as [|[e ev] inputs IH]; intros store.
  - simpl. unfold forwards. simpl. lia.
  - rewrite run_cons. simpl. rewrite forwards_app.
    pose proof (forwards_delivery e ev store).
    pose proof (IH (store_after e ev store)). lia.
Qed.

(** C7. An exception raised in the body of the handler is caught by the
    handler: it is logged with the current clock reading and the
    exception, a sleep of 60 seconds follows, and the handler returns
    normally. The handler never lets an exception out, a delivery makes at
    most one forward call and a run at most one per event (a failed
    forward is not repeated), and the run goes on with the next event. *)
Theorem errors_caught_logged_cooldown
    (e : env) (ev : event) (w w' : world) (ex : exception) :
  handler_body e ev w = (inl ex, w') →
  new_message_handler e ev w =
    (inr tt,
     World (message_store w') (S (ticks w'))
       (trace w' ++ [Log (clock e (ticks w')) (LogError ex); Sleep 60]))
  ∧ (∀ e0 ev0 w0, (new_message_handler e0 ev0 w0).1 = inr tt)
  ∧ (∀ store, (forwards (trace_of e ev store) <= 1)%nat)
  ∧ (∀ inputs store,
       (run_until_disconnected inputs store).1.1 = inr tt
       ∧ (forwards (run_until_disconnected inputs store).2
          <= length inputs)%nat)
  ∧ (∀ inputs store,
       run_until_disconnected ((e, ev) :: inputs) store =
       let rest := run_until_disconnected inputs (store_after e ev store) in
       (rest.1.1, rest.1.2, trace_of e ev store ++ rest.2)).
Proof.
  intros Hbody. split; [|split; [|split; [|split]]].
  - unfold new_message_handler, try_except. rewrite Hbody.
    unfold bind, log_with_time, asyncio_sleep, datetime_now, emit. simpl.
    rewrite <- app_assoc. reflexivity.
  - intros e0 ev0 w0. apply handler_returns.
  - intros store. apply forwards_delivery.
  - intros inputs store. split; [apply run_returns|apply forwards_run].
  - intros inputs store. apply run_cons.
Qed.

(** ** Pacing *)

(** Between two forwards to the primary destination lies a sleep of at
    least two seconds. *)
Definition paced (tr : list action) : Prop :=
  ∀ pre ev1 mid ev2 post,
    tr = pre ++ Forward ToDESTINATION ev1
             :: mid ++ Forward ToDESTINATION ev2 :: post →
    ∃ s, 2 <= s ∧ Sleep s ∈ mid.

(** A block of actions in which every forward to the primary destination
    is followed by a sleep and by no further such forward. *)
Definition settled (b : list action) : Prop :=
  ∀ pre ev mid,
    b = pre ++ Forward ToDESTINATION ev :: mid →
    (∃ s, 2 <= s ∧ Sleep s ∈ mid)
    ∧ ∀ ev', Forward ToDESTINATION ev' ∉ mid.

Lemma paced_nil : paced [].
Proof.
  intros pre ev1 mid ev2 post Heq. destruct pre; discriminate Heq.
Qed.

Lemma paced_app (b tr : list action) :
  settled b → paced tr → paced (b ++ tr).
Proof.
  intros Hb Htr pre ev1 mid ev2 post Heq.
  apply app_eq_app in Heq as [l [[Hbl Hl]|[Hpre Hl]]].
  - destruct l as [|a l'].
    + simpl in Hl. apply (Htr [] ev1 mid ev2 post). symmetry. exact Hl.
    + simpl in Hl. injection Hl as <- Hl.
      destruct (Hb pre ev1 l' Hbl) as [(s & Hs & Hin) Hnone].
      apply app_eq_app in Hl as [m [[Hmid Hm]|[Hl' Hm]]].
      * exists s. split; [exact Hs|]. subst mid. apply elem_of_app.
        left. exact Hin.
      * destruct m as [|a m'].
        -- rewrite app_nil_r in Hl'. subst l'. eauto.
        -- simpl in Hm. injection Hm as <- Hm. subst l'.
           exfalso. apply (Hnone ev2). apply elem_of_app. right. left.
  - apply (Htr l ev1 mid ev2 post). exact Hl.
Qed.

Ltac split_block Heq pre :=
  do 5 (try (destruct pre as [|? pre]; simpl in Heq;
             [try discriminate Heq|]));
  try discriminate Heq.

Lemma settled_delivery (e : env) (ev : event) (store : gmap text Z) :
  settled (trace_of e ev store).
Proof.
  intros pre ev0 mid Heq. branches e ev store; split_block Heq pre.
  - injection Heq as _ _ <-. split; [|intros ev' Hin; trace_mem].
    exists 60. split; [lia|]. right. left.
  - injection Heq as _ _ <-. split; [|intros ev' Hin; trace_mem].
    exists 2. split; [lia|]. right. left.
Qed.

Lemma paced_run (inputs : list (env * event)) (store : gmap text Z) :
  paced (run_until_disconnected inputs store).2.
Proof.
  revert store. induction inputs as [|[e ev] inputs IH]; intros store.
  - apply paced_nil.
  - rewrite run_cons. simpl. apply paced_app; [apply settled_delivery|].
    apply IH.
Qed.

(** C9. A delivery whose forward to the primary destination succeeds ends
    with a sleep of two seconds; a delivery without forward to the primary
    destination (stop word, or any drop) has no such sleep; in the trace of
    a run, two forwards to the primary destination are separated by a
    sleep of at least two seconds. *)
Theorem primary_forward_paced
    (inputs : list (env * event)) (store : gmap text Z) :
  (∀ e ev s,
     forward_raises e = None →
     Forward ToDESTINATION ev ∈ trace_of e ev s →
     trace_of e ev s =
       [Log (clock e 0) (LogReceived (chat_id ev));
        Forward ToDESTINATION ev;
        Log (clock e 3) (LogForwarded (text_of ev));
        Sleep 2])
  ∧ (∀ e ev s,
       (∀ ev', Forward ToDESTINATION ev' ∉ trace_of e ev s) →
       Sleep 2 ∉ trace_of e ev s)
  ∧ (∀ pre ev1 mid ev2 post,
       (run_until_disconnected inputs store).2 =
         pre ++ Forward ToDESTINATION ev1
             :: mid ++ Forward ToDESTINATION ev2 :: post →
       ∃ s, 2 <= s ∧ Sleep s ∈ mid).
Proof.
  split; [|split].
  - intros e ev s Hok Hin. branches e ev s; trace_mem;
      try discriminate Hok; reflexivity.
  - intros e ev s Hno Hin. branches e ev s; trace_mem;
      apply (Hno ev); right; left.
  - apply paced_run.
Qed.

(** ** Invariants of the store *)

Lemma threshold_refl (a : text) :
  (ratio a a == 100)%Q → (SIMILARITY_THRESHOLD <= ratio a a)%Q.
Proof.
  intros Heq. unfold SIMILARITY_THRESHOLD. rewrite Heq. discriminate.
Qed.

(** An entry that the sweep of a delivery retains keeps its timestamp. *)
Lemma entry_kept (e : env) (ev : event) (store : gmap text Z)
    (k : text) (ts : Z) :
  (∀ a, ratio a a == 100)%Q →
  store !! k = Some ts →
  clock e 1 - ts <= FILTER_DURATION →
  store_after e ev store !! k = Some ts.
Proof.
  intros Hrefl Hk Hfresh.
  assert (sweep store (clock e 1) !! k = Some ts) as Hswept
    by (apply lookup_sweep; split; assumption).
  branches e ev store; try assumption.
  - destruct (decide (text_of ev = k)) as [Heq|Hne].
    + exfalso. apply not_true_iff_false in Hsim. apply Hsim.
      apply is_similar_true. exists k, ts. split; [exact Hswept|].
      rewrite Heq. apply threshold_refl, Hrefl.
    + rewrite lookup_insert_ne by exact Hne. exact Hswept.
  - destruct (decide (text_of ev = k)) as [Heq|Hne].
    + exfalso. apply not_true_iff_false in Hsim. apply Hsim.
      apply is_similar_true. exists k, ts. split; [exact Hswept|].
      rewrite Heq. apply threshold_refl, Hrefl.
    + rewrite lookup_insert_ne by exact Hne. exact Hswept.
Qed.

Lemma entry_kept_run (inputs : list (env * event)) (store : gmap text Z)
    (k : text) (ts : Z) :
  (∀ a, ratio a a == 100)%Q →
  store !! k = Some ts →
  Forall (λ p, clock p.1 1 - ts <= FILTER_DURATION) inputs →
  (run_until_disconnected inputs store).1.2 !! k = Some ts.
Proof.
  intros Hrefl. revert store.
  induction inputs as [|[e ev] inputs IH]; intros store Hk Hall.
  - exact Hk.
  - rewrite run_cons. simpl. apply Forall_cons in Hall as [Hfresh Hall].
    apply IH; [|exact Hall]. apply entry_kept; assumption.
Qed.

(** C5. If [ratio a a] is 100, an entry of the store keeps its timestamp
    through every run whose sweeps all find it within the retention
    period; a message whose text is that of such an entry is never
    forwarded to the primary destination (the admission is not reached),
    and without stop word it is dropped as a duplicate. *)
Theorem stored_timestamp_never_refreshed
    (inputs : list (env * event)) (store : gmap text Z) (k : text) (ts : Z) :
  (∀ a, ratio a a == 100)%Q →
  store !! k = Some ts →
  Forall (λ p, clock p.1 1 - ts <= FILTER_DURATION) inputs →
  (run_until_disconnected inputs store).1.2 !! k = Some ts
  ∧ (∀ e ev,
       message_text ev = Some k →
       no_text ev = false →
       clock e 1 - ts <= FILTER_DURATION →
       store_after e ev store !! k = Some ts
       ∧ (∀ ev', Forward ToDESTINATION ev' ∉ trace_of e ev store)
       ∧ (contains_stop_words k = false →
          trace_of e ev store =
            [Log (clock e 0) (LogReceived (chat_id ev));
             Log (clock e 2) LogSimilar])).
Proof.
  intros Hrefl Hk Hall. split; [apply entry_kept_run; assumption|].
  intros e ev Htext Hnt Hfresh.
  split; [apply entry_kept; assumption|].
  assert (text_of ev = k) as Hk' by (unfold text_of; rewrite Htext; reflexivity).
  assert (is_similar (sweep store (clock e 1)) (text_of ev) = true) as Hs.
  { apply is_similar_true. exists k, ts. split.
    - apply lookup_sweep. split; assumption.
    - rewrite Hk'. apply threshold_refl, Hrefl. }
  rewrite trace_of_unfold. unfold dispatch_result. rewrite Hnt, Hs, Hk'.
  destruct (contains_stop_words k).
  - split; [|discriminate]. intros ev' Hin.
    destruct (forward_raises e); simpl in Hin; trace_mem.
  - split; [|reflexivity]. intros ev' Hin. simpl in Hin. trace_mem.
Qed.

Definition pairwise_dissimilar (store : gmap text Z) : Prop :=
  ∀ k1 k2, k1 ≠ k2 → is_Some (store !! k1) → is_Some (store !! k2) →
           (ratio k1 k2 < 90)%Q.

Lemma dissimilar_subseteq (small big : gmap text Z) :
  small ⊆ big → pairwise_dissimilar big → pairwise_dissimilar small.
Proof.
  intros Hsub Hbig k1 k2 Hne [t1 H1] [t2 H2]. apply Hbig; [exact Hne| |].
  - exists t1. eapply lookup_weaken; eassumption.
  - exists t2. eapply lookup_weaken; eassumption.
Qed.

Lemma dissimilar_insert (store : gmap text Z) (t : text) (now : Z) :
  (∀ a b, ratio a b == ratio b a)%Q →
  is_similar store t = false →
  pairwise_dissimilar store →
  pairwise_dissimilar (<[t := now]> store).
Proof.
  intros Hsym Hsim Hstore k1 k2 Hne [t1 H1] [t2 H2].
  pose proof (proj1 (is_similar_false store t) Hsim) as Hfar.
  unfold SIMILARITY_THRESHOLD in Hfar.
  rewrite lookup_insert in H1, H2.
  destruct (decide (t = k1)) as [E1|Hn1], (decide (t = k2)) as [E2|Hn2];
    subst.
  - congruence.
  - rewrite Hsym. eapply Hfar. exact H2.
  - eapply Hfar. exact H1.
  - apply Hstore; [exact Hne|eexists; exact H1|eexists; exact H2].
Qed.

Lemma dissimilar_delivery (e : env) (ev : event) (store : gmap text Z) :
  (∀ a b, ratio a b == ratio b a)%Q →
  pairwise_dissimilar store →
  pairwise_dissimilar (store_after e ev store).
Proof.
  intros Hsym Hstore.
  pose proof (dissimilar_subseteq _ _ (sweep_subseteq store (clock e 1))
                Hstore) as Hswept.
  branches e ev store; try assumption;
    apply dissimilar_insert; assumption.
Qed.

Lemma dissimilar_run (inputs : list (env * event)) (store : gmap text Z) :
  (∀ a b, ratio a b == ratio b a)%Q →
  pairwise_dissimilar store →
  pairwise_dissimilar (run_until_disconnected inputs store).1.2.
Proof.
  intros Hsym. revert store.
  induction inputs as [|[e ev] inputs IH]; intros store Hstore.
  - exact Hstore.
  - rewrite run_cons. simpl. apply IH, dissimilar_delivery; assumption.
Qed.

Lemma dissimilar_empty : pairwise_dissimilar ∅.
Proof.
  intros k1 k2 _ [t1 H1] _. rewrite lookup_empty in H1. discriminate H1.
Qed.

(** C10. If [ratio] is symmetric, then after any run that starts with the
    empty store every two distinct texts in the store have a ratio
    strictly below 90. *)
Theorem stored_texts_pairwise_dissimilar
    (inputs : list (env * event)) (k1 k2 : text) :
  (∀ a b, ratio a b == ratio b a)%Q →
  k1 ≠ k2 →
  k1 ∈ dom (run_until_disconnected inputs ∅).1.2 →
  k2 ∈ dom (run_until_disconnected inputs ∅).1.2 →
  (ratio k1 k2 < 90)%Q.
Proof.
  intros Hsym Hne Hk1 Hk2.
  apply (dissimilar_run inputs ∅ Hsym dissimilar_empty k1 k2 Hne);
    apply elem_of_dom; assumption.
Qed.

(** ** Normalization and the word sets *)

Lemma remove_spaces_app (a b : text) :
  remove_spaces (a ++ b) = remove_spaces a ++ remove_spaces b.
Proof. unfold remove_spaces. apply List.filter_app. Qed.

Lemma remove_spaces_other (c : N) : c ≠ 32%N → remove_spaces [c] = [c].
Proof.
  intros Hc. unfold remove_spaces. simpl.
  destruct (N.eqb_spec c 32) as [Heq|_]; [contradiction|reflexivity].
Qed.

Lemma elem_of_lowered (words : list text) (w' : text) :
  w' ∈ elements (list_to_set (lower <$> words) : gset text) ↔
  ∃ w, w ∈ words ∧ w' = lower w.
Proof.
  rewrite elem_of_elements, elem_of_list_to_set, list_elem_of_fmap.
  split; intros (w & H1 & H2); exists w; split; assumption.
Qed.

Lemma any_word_in (words : list text) (clean : text) :
  existsb (fun word => str_in (remove_spaces word) clean)
    (elements (list_to_set (lower <$> words) : gset text)) = true ↔
  ∃ w, w ∈ words ∧ str_in (remove_spaces (lower w)) clean = true.
Proof.
  rewrite existsb_exists. split.
  - intros (w' & Hin & Hsub). apply list_elem_of_In, elem_of_lowered in Hin.
    destruct Hin as (w & Hw & ->). eauto.
  - intros (w & Hw & Hsub). exists (lower w). split; [|exact Hsub].
    apply list_elem_of_In, elem_of_lowered. eauto.
Qed.

(** C4, as the code has it. Normalization is [remove_spaces] after
    [lower]; [remove_spaces] deletes every U+0020 and keeps every other
    character, whitespace included, in place. Both matchers normalize the
    message text and every configured word in this way before they test
    containment. *)
Theorem normalization_removes_spaces_only (t : text) :
  (∀ a b, remove_spaces (a ++ b) = remove_spaces a ++ remove_spaces b)
  ∧ remove_spaces [32%N] = []
  ∧ (∀ c, c ≠ 32%N → remove_spaces [c] = [c])
  ∧ (contains_stop_words t = true ↔
     ∃ w, w ∈ STOP_WORDS cfg
          ∧ str_in (remove_spaces (lower w)) (remove_spaces (lower t)) = true)
  ∧ (contains_key_words t = true ↔
     ∃ w, w ∈ KEY_WORDS cfg
          ∧ str_in (remove_spaces (lower w)) (remove_spaces (lower t)) = true).
Proof.
  split; [exact remove_spaces_app|].
  split; [reflexivity|].
  split; [exact remove_spaces_other|].
  split; apply any_word_in.
Qed.

(** ** Configuration *)

Lemma check_globals_ok (items : list (string * pyvalue)) :
  check_globals items = inr tt ↔ Forall (λ p, truthy p.2 = true) items.
Proof.
  induction items as [|[name value] items IH]; simpl.
  - split; [constructor|reflexivity].
  - destruct (truthy value) eqn:Hv; simpl.
    + rewrite IH. split.
      * intros H. constructor; assumption.
      * intros H. apply Forall_cons in H as [_ H]. exact H.
    + split; [discriminate|]. intros H. apply Forall_cons in H as [H _].
      simpl in H. congruence.
Qed.

Lemma check_globals_error (items : list (string * pyvalue)) (ex : exception) :
  check_globals items = inl ex →
  ∃ before name value after,
    items = before ++ (name, value) :: after
    ∧ ex = ValueError name
    ∧ truthy value = false
    ∧ Forall (λ p, truthy p.2 = true) before.
Proof.
  induction items as [|[name value] items IH]; simpl; [discriminate|].
  destruct (truthy value) eqn:Hv; simpl.
  - intros H. destruct (IH H) as (before & n & v & after & -> & -> & Hf & Hb).
    exists ((name, value) :: before), n, v, after.
    repeat split; [exact Hf|]. constructor; assumption.
  - intros H. injection H as <-. exists [], name, value, items.
    repeat split; [exact Hv|constructor].
Qed.

Lemma check_globals_falsy (items : list (string * pyvalue))
    (name : string) (value : pyvalue) :
  (name, value) ∈ items → truthy value = false →
  ∃ name', check_globals items = inl (ValueError name').
Proof.
  intros Hin Hv. destruct (check_globals items) as [ex|[]] eqn:E.
  - apply check_globals_error in E as (_ & n & _ & _ & _ & -> & _). eauto.
  - apply check_globals_ok in E. rewrite Forall_forall in E.
    specialize (E _ Hin). simpl in E. congruence.
Qed.

(** [validate_config] looks at the eight required variables, in order;
    it succeeds exactly when all of them are truthy, and otherwise raises
    a [ValueError] that names the first falsy one. An empty list of key
    words or of stop words makes it raise. *)
Lemma validate_config_first_falsy :
  (required_globals cfg).*1 =
    ["API_ID"; "API_HASH"; "SESSION"; "DESTINATION";
     "STOP_WORDS_DESTINATION"; "CHATS"; "KEY_WORDS"; "STOP_WORDS"]%string
  ∧ (validate_config cfg = inr tt ↔
     Forall (λ p, truthy p.2 = true) (required_globals cfg))
  ∧ (∀ ex, validate_config cfg = inl ex →
       ∃ before name value after,
         required_globals cfg = before ++ (name, value) :: after
         ∧ ex = ValueError name
         ∧ truthy value = false
         ∧ Forall (λ p, truthy p.2 = true) before)
  ∧ (KEY_WORDS cfg = [] ∨ STOP_WORDS cfg = [] →
     ∃ name, validate_config cfg = inl (ValueError name)).
Proof.
  split; [reflexivity|].
  split; [apply check_globals_ok|].
  split; [intros ex; apply check_globals_error|].
  intros [Hkw|Hsw]; unfold validate_config.
  - apply (check_globals_falsy _ "KEY_WORDS"%string (PyStrs (KEY_WORDS cfg))).
    + unfold required_globals. do 6 right. left.
    + rewrite Hkw. reflexivity.
  - apply (check_globals_falsy _ "STOP_WORDS"%string
             (PyStrs (STOP_WORDS cfg))).
    + unfold required_globals. do 7 right. left.
    + rewrite Hsw. reflexivity.
Qed.

End Relay.

(** * The concrete instances *)

Lemma lcs_nil_r (a : text) : lcs a [] = O.
Proof. destruct a; reflexivity. Qed.

Lemma lcs_cons (x y : N) (a b : text) :
  lcs (x :: a) (y :: b) =
  if (x =? y)%N then S (lcs a b)
  else Nat.max (lcs a (y :: b)) (lcs (x :: a) b).
Proof. reflexivity. Qed.

Lemma lcs_refl (a : text) : lcs a a = length a.
Proof.
  induction a as [|x a IH]; [reflexivity|].
  rewrite lcs_cons, N.eqb_refl, IH. reflexivity.
Qed.

Lemma lcs_sym (a b : text) : lcs a b = lcs b a.
Proof.
  revert b. induction a as [|x a IHa]; intros b.
  - rewrite lcs_nil_r. reflexivity.
  - induction b as [|y b IHb].
    + reflexivity.
    + rewrite !lcs_cons, (N.eqb_sym y x).
      destruct (x =? y)%N.
      * rewrite IHa. reflexivity.
      * rewrite IHa, IHb. apply Nat.max_comm.
Qed.

Lemma indel_ratio_refl (a : text) : (indel_ratio a a == 100)%Q.
Proof.
  unfold indel_ratio. rewrite lcs_refl.
  destruct a as [|x a]; [reflexivity|]. simpl length.
  unfold Qeq. simpl Qnum. simpl Qden.
  rewrite Zpos_P_of_succ_nat. lia.
Qed.

Lemma indel_ratio_sym (a b : text) : (indel_ratio a b == indel_ratio b a)%Q.
Proof.
  unfold indel_ratio. rewrite (lcs_sym a b), (Nat.add_comm (length a)).
  reflexivity.
Qed.

(** The configuration of the examples: one stop word and one key word. *)
Definition demo_config : config :=
  {| API_ID := PyInt 12345;
     API_HASH := PyStr (str "0123456789abcdef");
     SESSION := PyStr (str "relay");
     DESTINATION := PyInt (-1001);
     STOP_WORDS_DESTINATION := PyInt (-1002);
     CHATS := PyInts [100];
     KEY_WORDS := [str "deal"];
     STOP_WORDS := [str "scam"] |}.

(** A clock that starts at [t0] and advances by one microsecond per
    reading, with a forward call that succeeds or raises. *)
Definition at_time (t0 : Z) : env :=
  {| clock := fun n => t0 + Z.of_nat n; forward_raises := None |}.

Definition failing_at (t0 : Z) : env :=
  {| clock := fun n => t0 + Z.of_nat n;
     forward_raises := Some (TransportError "FloodWaitError") |}.

Definition message (s : string) : event :=
  {| chat_id := 100; message_text := Some (str s) |}.

Abbreviation demo_dispatch := (dispatch ascii_lower indel_ratio demo_config).
Abbreviation demo_trace := (trace_of ascii_lower indel_ratio demo_config).
Abbreviation demo_store := (store_after ascii_lower indel_ratio demo_config).
Abbreviation demo_run :=
  (run_until_disconnected ascii_lower indel_ratio demo_config).

(** * The theorems at concrete inputs *)

(** C1: "this is a scam deal" has a stop word and a key word, and is
    already in the store; it goes to the stop-words destination and the
    store keeps its single entry with its timestamp. *)
Lemma stop_words_take_precedence_witness :
  no_text (message "this is a scam deal") = false
  ∧ contains_stop_words ascii_lower demo_config
      (text_of (message "this is a scam deal")) = true
  ∧ contains_key_words ascii_lower demo_config
      (text_of (message "this is a scam deal")) = true
  ∧ demo_trace (at_time 1000) (message "this is a scam deal")
      {[ str "this is a scam deal" := 0 ]} =
    [Log 1000 (LogReceived 100);
     Forward ToSTOP_WORDS_DESTINATION (message "this is a scam deal");
     Log 1002 LogStopWords]
  ∧ demo_store (at_time 1000) (message "this is a scam deal")
      {[ str "this is a scam deal" := 0 ]} ⊆
    {[ str "this is a scam deal" := 0 ]}.
Proof.
  assert (no_text (message "this is a scam deal") = false) as H1
    by reflexivity.
  assert (contains_stop_words ascii_lower demo_config
            (text_of (message "this is a scam deal")) = true) as H2
    by (vm_compute; reflexivity).
  split; [exact H1|]. split; [exact H2|].
  split; [vm_compute; reflexivity|].
  destruct (stop_words_take_precedence ascii_lower indel_ratio demo_config
              (at_time 1000) (message "this is a scam deal")
              {[ str "this is a scam deal" := 0 ]} H1 H2)
    as (Htrace & _ & _ & _ & Hsub).
  split; [exact Htrace|exact Hsub].
Defined.

(** C2: the stored text and the message agree on nine of ten characters,
    so the ratio is exactly 90 and the message is dropped. *)
Lemma duplicate_drop_iff_witness :
  no_text (message "abcdefghiX") = false
  ∧ contains_stop_words ascii_lower demo_config
      (text_of (message "abcdefghiX")) = false
  ∧ (indel_ratio (str "abcdefghij") (str "abcdefghiX") == 90)%Q
  ∧ demo_trace (at_time 1000) (message "abcdefghiX")
      {[ str "abcdefghij" := 0 ]} =
    [Log 1000 (LogReceived 100); Log 1002 LogSimilar].
Proof.
  assert (no_text (message "abcdefghiX") = false) as H1 by reflexivity.
  assert (contains_stop_words ascii_lower demo_config
            (text_of (message "abcdefghiX")) = false) as H2
    by (vm_compute; reflexivity).
  split; [exact H1|]. split; [exact H2|].
  split; [vm_compute; reflexivity|].
  apply (duplicate_drop_iff ascii_lower indel_ratio demo_config
           (at_time 1000) (message "abcdefghiX")
           {[ str "abcdefghij" := 0 ]} H1 H2).
  exists (str "abcdefghij"), 0. split.
  - vm_compute. reflexivity.
  - apply Qle_bool_iff. vm_compute. reflexivity.
Defined.

(** C3: an entry admitted at 0 blocks its repetition at 23h59m and is
    swept at 24h01m, where the repetition is admitted anew. *)
Lemma expiry_sweep_window_witness :
  ({[ str "great deal" := 0 ]} : gmap text Z) !! str "great deal" = Some 0
  ∧ demo_trace (at_time (1439 * 60000000 - 1)) (message "great deal")
      {[ str "great deal" := 0 ]} =
    [Log (1439 * 60000000 - 1) (LogReceived 100);
     Log (1439 * 60000000 + 1) LogSimilar]
  ∧ demo_store (at_time (1441 * 60000000 - 1)) (message "great deal")
      {[ str "great deal" := 0 ]} =
    {[ str "great deal" := 1441 * 60000000 + 1 ]}.
Proof.
  assert (({[ str "great deal" := 0 ]} : gmap text Z) !! str "great deal"
          = Some 0) as H by (vm_compute; reflexivity).
  split; [exact H|].
  destruct (expiry_sweep_window ascii_lower indel_ratio demo_config
              {[ str "great deal" := 0 ]} (str "great deal") 0 H)
    as (_ & _ & _ & Hbefore & Hafter).
  split.
  - rewrite (Hbefore (at_time (1439 * 60000000 - 1)) (message "great deal")).
    + vm_compute. reflexivity.
    + reflexivity.
    + vm_compute. reflexivity.
    + apply Qle_bool_iff. vm_compute. reflexivity.
    + vm_compute. reflexivity.
  - destruct (Hafter (at_time (1441 * 60000000 - 1)) (message "great deal"))
      as [Hstore _].
    + reflexivity.
    + vm_compute. reflexivity.
    + vm_compute. reflexivity.
    + vm_compute. reflexivity.
    + intros k' ts Hne Hk'. exfalso. revert Hk'.
      replace (sweep {[ str "great deal" := 0 ]}
                 (clock (at_time (1441 * 60000000 - 1)) 1))
        with (∅ : gmap text Z) by (vm_compute; reflexivity).
      rewrite lookup_empty. discriminate.
    + rewrite Hstore. vm_compute. reflexivity.
Defined.

(** C5: "great deal" is stored at 0; delivering it twice more within the
    day leaves the timestamp at 0. *)
Lemma stored_timestamp_never_refreshed_witness :
  (∀ a, indel_ratio a a == 100)%Q
  ∧ ({[ str "great deal" := 0 ]} : gmap text Z) !! str "great deal" = Some 0
  ∧ (demo_run
       [(at_time 3600000000, message "great deal");
        (at_time 7200000000, message "great deal")]
       {[ str "great deal" := 0 ]}).1.2 !! str "great deal" = Some 0.
Proof.
  assert (({[ str "great deal" := 0 ]} : gmap text Z) !! str "great deal"
          = Some 0) as H by (vm_compute; reflexivity).
  split; [exact indel_ratio_refl|]. split; [exact H|].
  assert (Forall (λ p : env * event, clock p.1 1 - 0 <= FILTER_DURATION)
            [(at_time 3600000000, message "great deal");
             (at_time 7200000000, message "great deal")]) as Hall
    by (repeat constructor; vm_compute; discriminate).
  exact (proj1 (stored_timestamp_never_refreshed ascii_lower indel_ratio
                  demo_config
                  [(at_time 3600000000, message "great deal");
                   (at_time 7200000000, message "great deal")]
                  {[ str "great deal" := 0 ]} (str "great deal") 0
                  indel_ratio_refl H Hall)).
Defined.

(** C6: "hello" has no stop word and no key word; the store keeps its
    entry and gains nothing. *)
Lemma store_gains_only_on_admission_witness :
  (∀ ev', Forward ToDESTINATION ev' ∉
            demo_trace (at_time 1000) (message "hello")
              {[ str "great deal" := 0 ]})
  ∧ demo_store (at_time 1000) (message "hello") {[ str "great deal" := 0 ]}
    ⊆ {[ str "great deal" := 0 ]}.
Proof.
  assert (∀ ev', Forward ToDESTINATION ev' ∉
            demo_trace (at_time 1000) (message "hello")
              {[ str "great deal" := 0 ]}) as H.
  { intros ev' Hin.
    replace (demo_trace (at_time 1000) (message "hello")
               {[ str "great deal" := 0 ]})
      with [Log 1000 (LogReceived 100); Log 1002 LogNoKeyWords] in Hin
      by (vm_compute; reflexivity).
    trace_mem. }
  split; [exact H|].
  exact (proj2 (store_gains_only_on_admission ascii_lower indel_ratio
                  demo_config (at_time 1000) (message "hello")
                  {[ str "great deal" := 0 ]}) H).
Defined.

(** C7: the forward of "great deal" raises; the handler logs the error,
    sleeps for 60 seconds and returns. *)
Lemma errors_caught_logged_cooldown_witness :
  handler_body ascii_lower indel_ratio demo_config
    (failing_at 1000) (message "great deal") (World ∅ 0 []) =
    (inl (TransportError "FloodWaitError"),
     World {[ str "great deal" := 1002 ]} 3
       [Log 1000 (LogReceived 100);
        Forward ToDESTINATION (message "great deal")])
  ∧ new_message_handler ascii_lower indel_ratio demo_config
      (failing_at 1000) (message "great deal") (World ∅ 0 []) =
    (inr tt,
     World {[ str "great deal" := 1002 ]} 4
       [Log 1000 (LogReceived 100);
        Forward ToDESTINATION (message "great deal");
        Log 1003 (LogError (TransportError "FloodWaitError"));
        Sleep 60]).
Proof.
  assert (handler_body ascii_lower indel_ratio demo_config
            (failing_at 1000) (message "great deal") (World ∅ 0 []) =
          (inl (TransportError "FloodWaitError"),
           World {[ str "great deal" := 1002 ]} 3
             [Log 1000 (LogReceived 100);
              Forward ToDESTINATION (message "great deal")])) as H
    by (vm_compute; reflexivity).
  split; [exact H|].
  exact (proj1 (errors_caught_logged_cooldown ascii_lower indel_ratio
                  demo_config (failing_at 1000) (message "great deal")
                  (World ∅ 0 []) _ _ H)).
Defined.

(** C9: two different offers are forwarded one after the other; the
    sleep of the first delivery lies between the two forwards. *)
Lemma primary_forward_paced_witness :
  (demo_run
     [(at_time 1000, message "great deal");
      (at_time 2000, message "cheap deal on shoes")] ∅).2 =
    [Log 1000 (LogReceived 100)]
    ++ Forward ToDESTINATION (message "great deal")
    :: [Log 1003 (LogForwarded (str "great deal")); Sleep 2;
        Log 2000 (LogReceived 100)]
    ++ Forward ToDESTINATION (message "cheap deal on shoes")
    :: [Log 2003 (LogForwarded (str "cheap deal on shoes")); Sleep 2]
  ∧ ∃ s, 2 <= s
         ∧ Sleep s ∈ [Log 1003 (LogForwarded (str "great deal")); Sleep 2;
                      Log 2000 (LogReceived 100)].
Proof.
  assert ((demo_run
             [(at_time 1000, message "great deal");
              (at_time 2000, message "cheap deal on shoes")] ∅).2 =
          [Log 1000 (LogReceived 100)]
          ++ Forward ToDESTINATION (message "great deal")
          :: [Log 1003 (LogForwarded (str "great deal")); Sleep 2;
              Log 2000 (LogReceived 100)]
          ++ Forward ToDESTINATION (message "cheap deal on shoes")
          :: [Log 2003 (LogForwarded (str "cheap deal on shoes")); Sleep 2])
    as H by (vm_compute; reflexivity).
  split; [exact H|].
  exact (proj2 (proj2 (primary_forward_paced ascii_lower indel_ratio
                         demo_config _ ∅)) _ _ _ _ _ H).
Defined.

(** C10: after three deliveries the store holds two texts, and their
    ratio is below 90. *)
Lemma stored_texts_pairwise_dissimilar_witness :
  (∀ a b, indel_ratio a b == indel_ratio b a)%Q
  ∧ str "great deal" ≠ str "cheap shoes deal"
  ∧ dom (demo_run
           [(at_time 1000, message "great deal");
            (at_time 2000, message "great deal!");
            (at_time 3000, message "cheap shoes deal")] ∅).1.2 =
    {[ str "great deal"; str "cheap shoes deal" ]}
  ∧ (indel_ratio (str "great deal") (str "cheap shoes deal") < 90)%Q.
Proof.
  assert (dom (demo_run
                 [(at_time 1000, message "great deal");
                  (at_time 2000, message "great deal!");
                  (at_time 3000, message "cheap shoes deal")] ∅).1.2 =
          ({[ str "great deal"; str "cheap shoes deal" ]} : gset text)) as H
    by (vm_compute; reflexivity).
  assert (str "great deal" ≠ str "cheap shoes deal") as Hne
    by (vm_compute; discriminate).
  split; [exact indel_ratio_sym|]. split; [exact Hne|]. split; [exact H|].
  apply (stored_texts_pairwise_dissimilar ascii_lower indel_ratio demo_config
           [(at_time 1000, message "great deal");
            (at_time 2000, message "great deal!");
            (at_time 3000, message "cheap shoes deal")]
           _ _ indel_ratio_sym Hne); rewrite H; set_solver.
Defined.

(** C4, as the code has it: "S C A M" matches the stop word "scam", and
    a tab is kept by [remove_spaces]. *)
Lemma normalization_removes_spaces_only_witness :
  contains_stop_words ascii_lower demo_config (str "S C A M") = true
  ∧ remove_spaces [9%N] = [9%N].
Proof.
  destruct (normalization_removes_spaces_only ascii_lower demo_config
              (str "S C A M")) as (_ & _ & Hkeep & Hstop & _).
  split.
  - apply Hstop. exists (str "scam"). split; [left|].
    vm_compute. reflexivity.
  - apply Hkeep. discriminate.
Defined.

(** C4, as the claim has it, fails: in "sc<TAB>am" the tab is a
    whitespace character that normalization keeps, so the text is
    unchanged, still holds whitespace, and does not match the stop word
    "scam". *)
Lemma normalization_keeps_whitespace :
  remove_spaces (ascii_lower [115; 99; 9; 97; 109]%N)
    = [115; 99; 9; 97; 109]%N
  ∧ existsb isspace (remove_spaces (ascii_lower [115; 99; 9; 97; 109]%N))
    = true
  ∧ contains_stop_words ascii_lower demo_config [115; 99; 9; 97; 109]%N
    = false
  ∧ contains_stop_words ascii_lower demo_config [115; 99; 32; 97; 109]%N
    = true.
Proof. vm_compute. repeat split. Qed.

(** ** Further evaluations *)

(** The comparison is on raw texts: "GREAT DEAL" after "Great  deal!" has
    a ratio of 400/22 and is forwarded, although both normalize to texts
    that differ in one character only. *)
Example raw_comparison :
  (indel_ratio (str "Great  deal!") (str "GREAT DEAL") == 400 # 22)%Q
  ∧ demo_trace (at_time 2000) (message "GREAT DEAL")
      (demo_store (at_time 1000) (message "Great  deal!") ∅) =
    [Log 2000 (LogReceived 100);
     Forward ToDESTINATION (message "GREAT DEAL");
     Log 2003 (LogForwarded (str "GREAT DEAL"));
     Sleep 2].
Proof. split; vm_compute; reflexivity. Qed.

(** An entry whose age is exactly the retention period is kept; one
    microsecond later it is removed. *)
Example sweep_boundary :
  sweep {[ str "great deal" := 0 ]} FILTER_DURATION
    = {[ str "great deal" := 0 ]}
  ∧ sweep {[ str "great deal" := 0 ]} (FILTER_DURATION + 1) = ∅.
Proof. split; vm_compute; reflexivity. Qed.

(** A message without text is dropped before the sweep. *)
Example no_text_delivery :
  demo_dispatch (at_time (2 * FILTER_DURATION)) (Event 100 None)
    {[ str "great deal" := 0 ]} =
  (inr tt, {[ str "great deal" := 0 ]},
   [Log (2 * FILTER_DURATION) (LogReceived 100);
    Log (2 * FILTER_DURATION + 1) LogNoText]).
Proof. vm_compute. reflexivity. Qed.

(** * Further properties of the code *)

(** ** Deletion with [KeyError] *)

(** [del message_store[msg]] raises [KeyError] when [msg] is not a key;
    [None] stands for the raised error. *)
Definition del_item (msg : text) (store : gmap text Z)
  : option (gmap text Z) :=
  match store !! msg with
  | Some _ => Some (delete msg store)
  | None => None
  end.

(** The deletion loop of [remove_old_messages], in the order of the list. *)
Fixpoint del_each (msgs : list text) (store : gmap text Z)
  : option (gmap text Z) :=
  match msgs with
  | [] => Some store
  | msg :: msgs' =>
      match del_item msg store with
      | Some store' => del_each msgs' store'
      | None => None
      end
  end.

Definition is_primary_forward (a : action) : bool :=
  match a with
  | Forward ToDESTINATION _ => true
  | _ => false
  end.

Definition is_stop_forward (a : action) : bool :=
  match a with
  | Forward ToSTOP_WORDS_DESTINATION _ => true
  | _ => false
  end.

Definition primary_forwards (tr : list action) : nat :=
  length (List.filter is_primary_forward tr).

Definition stop_forwards (tr : list action) : nat :=
  length (List.filter is_stop_forward tr).

(** ** Text and matching *)

Lemma remove_spaces_no_space (t : text) : 32%N ∉ remove_spaces t.
Proof.
  intros Hin. apply list_elem_of_In, filter_In in Hin as [_ Hc].
  discriminate Hc.
Qed.

Lemma remove_spaces_id (t : text) : 32%N ∉ t → remove_spaces t = t.
Proof.
  induction t as [|c t IH]; intros Hno; [reflexivity|].
  unfold remove_spaces in *. simpl.
  destruct (N.eqb_spec c 32) as [->|Hc].
  - exfalso. apply Hno. left.
  - simpl. f_equal. apply IH. intros Hin. apply Hno. right. exact Hin.
Qed.

(** X1. The result of [remove_spaces] has no space, a second application
    changes nothing, and a text is returned as it is exactly when it has
    no space. *)
Theorem remove_spaces_fixpoint (t : text) :
  (32%N ∉ remove_spaces t)
  ∧ remove_spaces (remove_spaces t) = remove_spaces t
  ∧ (remove_spaces t = t ↔ 32%N ∉ t).
Proof.
  split; [apply remove_spaces_no_space|].
  split; [apply remove_spaces_id, remove_spaces_no_space|].
  split.
  - intros <-. apply remove_spaces_no_space.
  - apply remove_spaces_id.
Qed.

Lemma startswith_prefix (needle hay : text) :
  startswith needle hay = true ↔ ∃ post, hay = needle ++ post.
Proof.
  revert hay. induction needle as [|a needle IH]; intros hay; simpl.
  - split; [eauto|reflexivity].
  - destruct hay as [|b hay].
    + split; [discriminate|]. intros [post H]. discriminate H.
    + rewrite andb_true_iff, IH, N.eqb_eq. split.
      * intros [-> [post ->]]. eauto.
      * intros [post H]. injection H as -> ->. eauto.
Qed.

(** X2. [str_in needle hay], the embedding of Python's [needle in hay],
    holds exactly when [needle] is a contiguous part of [hay]; the empty
    needle is in every text. *)
Theorem str_in_infix (needle hay : text) :
  str_in needle hay = true ↔ ∃ pre post, hay = pre ++ needle ++ post.
Proof.
  induction hay as [|c hay IH]; simpl.
  - rewrite orb_false_r, startswith_prefix. split.
    + intros [post H]. exists [], post. exact H.
    + intros (pre & post & H). destruct pre; [|discriminate H].
      exists post. exact H.
  - rewrite orb_true_iff, startswith_prefix, IH. split.
    + intros [[post H]|(pre & post & H)].
      * exists [], post. exact H.
      * exists (c :: pre), post. rewrite H. reflexivity.
    + intros (pre & post & H). destruct pre as [|c' pre].
      * left. exists post. exact H.
      * right. injection H as _ H. eauto.
Qed.

(** X3. A configured stop word that consists of spaces only (its
    normalized form is empty) is found in every message text; the same
    holds for such a key word. *)
Theorem blank_word_matches_everything
    (lower : text → text) (cfg : config) (w t : text) :
  remove_spaces (lower w) = [] →
  (w ∈ STOP_WORDS cfg → contains_stop_words lower cfg t = true)
  ∧ (w ∈ KEY_WORDS cfg → contains_key_words lower cfg t = true).
Proof.
  intros Hblank.
  assert (str_in (remove_spaces (lower w)) (remove_spaces (lower t)) = true)
    as Hin.
  { rewrite Hblank. destruct (remove_spaces (lower t)); reflexivity. }
  split; intros Hw; apply any_word_in; eauto.
Qed.

(** X4. The matchers see the configured words as a set: two
    configurations whose stop-word lists have the same members (in any
    order, with any repetition) give the same answer on every text, and
    likewise for the key words. *)
Theorem word_lists_as_sets
    (lower : text → text) (c1 c2 : config) (t : text) :
  ((∀ w, w ∈ STOP_WORDS c1 ↔ w ∈ STOP_WORDS c2) →
   contains_stop_words lower c1 t = contains_stop_words lower c2 t)
  ∧ ((∀ w, w ∈ KEY_WORDS c1 ↔ w ∈ KEY_WORDS c2) →
     contains_key_words lower c1 t = contains_key_words lower c2 t).
Proof.
  split; intros Hsame; apply eq_true_iff_eq;
    unfold contains_stop_words, contains_key_words, STOP_WORDS_SET,
      KEY_WORDS_SET;
    rewrite !any_word_in; split; intros (w & Hw & Hin); exists w;
    (split; [apply Hsame; exact Hw|exact Hin]).
Qed.

(** ** The sweep *)

Lemma delete_all_delete (msgs : list text) (msg : text)
    (store : gmap text Z) :
  delete_all msgs (delete msg store) = delete msg (delete_all msgs store).
Proof.
  induction msgs as [|m msgs IH]; simpl; [reflexivity|].
  rewrite IH. apply delete_delete.
Qed.

Lemma del_each_present (msgs : list text) (store : gmap text Z) :
  NoDup msgs →
  (∀ k, k ∈ msgs → is_Some (store !! k)) →
  del_each msgs store = Some (delete_all msgs store).
Proof.
  revert store. induction msgs as [|m msgs IH]; intros store Hnd Hall.
  - reflexivity.
  - apply NoDup_cons in Hnd as [Hm Hnd]. simpl. unfold del_item.
    destruct (Hall m) as [ts ->]; [left|].
    rewrite IH; [|exact Hnd|].
    + rewrite delete_all_delete. reflexivity.
    + intros k Hk. rewrite lookup_delete_ne.
      * apply Hall. right. exact Hk.
      * intros ->. contradiction.
Qed.

Lemma NoDup_filter_fst (f : text * Z → bool) (l : list (text * Z)) :
  NoDup l.*1 → NoDup (List.filter f l).*1.
Proof.
  induction l as [|[k ts] l IH]; simpl; intros Hnd; [constructor|].
  apply NoDup_cons in Hnd as [Hk Hnd].
  destruct (f (k, ts)); simpl; [|apply IH, Hnd].
  apply NoDup_cons. split; [|apply IH, Hnd].
  intros Hin. apply Hk. apply list_elem_of_fmap in Hin as ([k' ts'] & -> & Hin).
  apply list_elem_of_In, filter_In in Hin as [Hin _].
  apply list_elem_of_fmap. exists (k', ts'). split; [reflexivity|].
  apply list_elem_of_In. exact Hin.
Qed.

(** X5. The deletion loop of [remove_old_messages] never meets a missing
    key: run with a [del] that fails on a missing key, it succeeds on the
    list [to_remove] and yields the swept store. *)
Theorem deletion_never_misses (store : gmap text Z) (now : Z) :
  del_each (to_remove store now) store = Some (sweep store now).
Proof.
  unfold sweep. apply del_each_present.
  - unfold to_remove. apply NoDup_filter_fst, NoDup_fst_map_to_list.
  - intros k Hk. apply elem_of_to_remove in Hk as (ts & Hk & _). eauto.
Qed.

(** X6. Two sweeps in a row act as one sweep at the later of the two
    readings; in particular a sweep repeated at the same reading changes
    nothing. *)
Theorem sweep_sweep (store : gmap text Z) (t1 t2 : Z) :
  sweep (sweep store t1) t2 = sweep store (Z.max t1 t2)
  ∧ sweep (sweep store t1) t1 = sweep store t1.
Proof.
  split; apply map_eq; intros k; apply option_eq; intros ts;
    rewrite !lookup_sweep; split; intros H;
    repeat match goal with
           | H : _ ∧ _ |- _ => destruct H
           | |- _ ∧ _ => split
           end; try assumption; lia.
Qed.

(** X7. A sweep leaves the store as it is exactly when no entry is older
    than the retention period at the reading; entries with a timestamp
    after the reading are such entries. *)
Theorem sweep_id_iff_fresh (store : gmap text Z) (now : Z) :
  sweep store now = store ↔
  ∀ k ts, store !! k = Some ts → now - ts <= FILTER_DURATION.
Proof.
  split.
  - intros Heq k ts Hk. rewrite <- Heq in Hk.
    apply lookup_sweep in Hk as [_ Hle]. exact Hle.
  - intros Hfresh. apply map_eq; intros k; apply option_eq; intros ts.
    rewrite lookup_sweep. split.
    + intros [Hk _]. exact Hk.
    + intros Hk. split; [exact Hk|]. eapply Hfresh. exact Hk.
Qed.

(** X8. [is_similar] looks at the stored texts only, not at their
    timestamps, and grows with the store: a text found similar stays
    similar in every store that has at least the same keys. *)
Theorem is_similar_by_keys
    (ratio : text → text → Q) (small big : gmap text Z) (t : text) :
  dom small ⊆ dom big →
  is_similar ratio small t = true →
  is_similar ratio big t = true.
Proof.
  intros Hsub Hsim. apply is_similar_true in Hsim as (k & ts & Hk & Hle).
  apply is_similar_true.
  assert (k ∈ dom big) as Hin by (apply Hsub, elem_of_dom; eauto).
  apply elem_of_dom in Hin as [ts' Hk']. eauto.
Qed.

(** ** Deliveries and runs *)

Section Deliveries.

Variable lower : text → text.
Variable ratio : text → text → Q.
Variable cfg : config.

(** Case analysis on the branch a delivery takes. *)
Ltac delivery e ev store :=
  rewrite ?store_after_unfold, ?trace_of_unfold in *;
  unfold dispatch_result in *;
  destruct (no_text ev) eqn:Hnotext;
  [|destruct (contains_stop_words lower cfg (text_of ev)) eqn:Hstop;
    [destruct (forward_raises e) eqn:Hraise
    |destruct (is_similar ratio (sweep store (clock e 1)) (text_of ev))
       eqn:Hsim;
     [|destruct (contains_key_words lower cfg (text_of ev)) eqn:Hkey;
       [destruct (forward_raises e) eqn:Hraise|]]]];
  simpl in *.

(** X9. What a delivery forwards, and where: only the delivered message
    itself, and only if it has text; to the stop-words destination exactly
    when the text has a stop word, to the primary destination exactly when
    it has no stop word, is not similar to a retained entry and has a key
    word. *)
Theorem forward_iff
    (e : env) (ev ev' : event) (d : destination) (store : gmap text Z) :
  Forward d ev' ∈ trace_of lower ratio cfg e ev store ↔
  ev' = ev
  ∧ no_text ev = false
  ∧ ((d = ToSTOP_WORDS_DESTINATION
      ∧ contains_stop_words lower cfg (text_of ev) = true)
     ∨ (d = ToDESTINATION
        ∧ contains_stop_words lower cfg (text_of ev) = false
        ∧ is_similar ratio (sweep store (clock e 1)) (text_of ev) = false
        ∧ contains_key_words lower cfg (text_of ev) = true)).
Proof.
  split.
  - intros Hin. delivery e ev store; trace_mem;
      injection Hin as -> ->; repeat split; auto.
  - intros (-> & Hnt & [[-> Hs]|(-> & Hs & Hsim' & Hk)]);
      delivery e ev store; try discriminate; right; left.
Qed.

(** X10. A delivery that gets neither stop word, nor duplicate, nor key
    word is dropped with the no-key-words log, without forward and without
    sleep; the store is only swept. *)
Theorem no_key_words_drop
    (e : env) (ev : event) (store : gmap text Z) :
  no_text ev = false →
  contains_stop_words lower cfg (text_of ev) = false →
  is_similar ratio (sweep store (clock e 1)) (text_of ev) = false →
  contains_key_words lower cfg (text_of ev) = false →
  dispatch lower ratio cfg e ev store =
    (inr tt, sweep store (clock e 1),
     [Log (clock e 0) (LogReceived (chat_id ev));
      Log (clock e 2) LogNoKeyWords]).
Proof.
  intros Hnt Hs Hsim Hk. rewrite dispatch_unfold. unfold dispatch_result.
  rewrite Hnt, Hs, Hsim, Hk. reflexivity.
Qed.

(** X11. The sleep of 60 seconds and the error log occur in the trace of
    a delivery exactly when its forward call is reached and raises; every
    sleep of a delivery lasts 2 or 60 seconds. *)
Theorem cooldown_iff_forward_failed
    (e : env) (ev : event) (store : gmap text Z) :
  (Sleep 60 ∈ trace_of lower ratio cfg e ev store ↔
   ∃ ex d, forward_raises e = Some ex
           ∧ Forward d ev ∈ trace_of lower ratio cfg e ev store)
  ∧ (∀ t ex, Log t (LogError ex) ∈ trace_of lower ratio cfg e ev store →
             forward_raises e = Some ex
             ∧ Sleep 60 ∈ trace_of lower ratio cfg e ev store)
  ∧ (∀ s, Sleep s ∈ trace_of lower ratio cfg e ev store → s = 2 ∨ s = 60).
Proof.
  split; [split|split].
  - intros Hin. delivery e ev store; trace_mem.
    + exists e0, ToSTOP_WORDS_DESTINATION. split; [reflexivity|]. right. left.
    + exists e0, ToDESTINATION. split; [reflexivity|]. right. left.
  - intros (ex & d & Hex & Hin). delivery e ev store; trace_mem;
      try discriminate Hex; do 3 right; left.
  - intros t ex Hin. delivery e ev store; trace_mem;
      injection Hin as _ ->; (split; [reflexivity|do 3 right; left]).
  - intros s Hin. delivery e ev store; trace_mem;
      injection Hin as ->; auto.
Qed.

(** X12. A forward to the primary destination that raises leaves the
    message text in the store, under the admission reading of the clock:
    the message is lost, and a message with a ratio of at least 90 to it
    that arrives within the retention period is dropped as a duplicate. *)
Theorem failed_forward_still_admits
    (e : env) (ev : event) (store : gmap text Z) (ex : exception) :
  no_text ev = false →
  contains_stop_words lower cfg (text_of ev) = false →
  is_similar ratio (sweep store (clock e 1)) (text_of ev) = false →
  contains_key_words lower cfg (text_of ev) = true →
  forward_raises e = Some ex →
  store_after lower ratio cfg e ev store !! text_of ev = Some (clock e 2)
  ∧ trace_of lower ratio cfg e ev store =
      [Log (clock e 0) (LogReceived (chat_id ev));
       Forward ToDESTINATION ev;
       Log (clock e 3) (LogError ex);
       Sleep 60]
  ∧ ∀ e' ev',
      no_text ev' = false →
      contains_stop_words lower cfg (text_of ev') = false →
      (90 <= ratio (text_of ev) (text_of ev'))%Q →
      clock e' 1 - clock e 2 <= FILTER_DURATION →
      trace_of lower ratio cfg e' ev' (store_after lower ratio cfg e ev store)
      = [Log (clock e' 0) (LogReceived (chat_id ev'));
         Log (clock e' 2) LogSimilar].
Proof.
  intros Hnt Hs Hsim Hk Hex.
  assert (store_after lower ratio cfg e ev store =
          <[text_of ev := clock e 2]> (sweep store (clock e 1))) as Hstore.
  { rewrite store_after_unfold. unfold dispatch_result.
    rewrite Hnt, Hs, Hsim, Hk, Hex. reflexivity. }
  split; [rewrite Hstore; apply lookup_insert_eq|].
  split.
  - rewrite trace_of_unfold. unfold dispatch_result.
    rewrite Hnt, Hs, Hsim, Hk, Hex. reflexivity.
  - intros e' ev' Hnt' Hs' Hle Hfresh.
    rewrite trace_of_unfold. unfold dispatch_result. rewrite Hnt', Hs'.
    replace (is_similar ratio
               (sweep (store_after lower ratio cfg e ev store) (clock e' 1))
               (text_of ev')) with true; [reflexivity|].
    symmetry. apply is_similar_true. exists (text_of ev), (clock e 2).
    split; [|exact Hle]. apply lookup_sweep. split; [|exact Hfresh].
    rewrite Hstore. apply lookup_insert_eq.
Qed.

Lemma primary_forwards_app (tr tr' : list action) :
  primary_forwards (tr ++ tr') =
  (primary_forwards tr + primary_forwards tr')%nat.
Proof.
  unfold primary_forwards. rewrite List.filter_app, length_app. reflexivity.
Qed.

Lemma stop_forwards_app (tr tr' : list action) :
  stop_forwards (tr ++ tr') = (stop_forwards tr + stop_forwards tr')%nat.
Proof.
  unfold stop_forwards. rewrite List.filter_app, length_app. reflexivity.
Qed.

(** X14. Messages with a stop word are forwarded every time: in a run of
    such messages the trace has one forward to the stop-words destination
    per event and none to the primary destination, however often a text
    repeats, and the store gains nothing. *)
Theorem stop_messages_always_forwarded
    (inputs : list (env * event)) (store : gmap text Z) :
  Forall (λ p, no_text p.2 = false
               ∧ contains_stop_words lower cfg (text_of p.2) = true) inputs →
  stop_forwards (run_until_disconnected lower ratio cfg inputs store).2
    = length inputs
  ∧ primary_forwards (run_until_disconnected lower ratio cfg inputs store).2
    = O
  ∧ (run_until_disconnected lower ratio cfg inputs store).1.2 ⊆ store.
Proof.
  revert store. induction inputs as [|[e ev] inputs IH]; intros store Hall.
  - repeat split; reflexivity.
  - apply Forall_cons in Hall as [[Hnt Hs] Hall]. simpl in Hnt, Hs.
    rewrite run_cons. simpl.
    assert (store_after lower ratio cfg e ev store = sweep store (clock e 1)
            ∧ stop_forwards (trace_of lower ratio cfg e ev store) = 1%nat
            ∧ primary_forwards (trace_of lower ratio cfg e ev store) = O)
      as (Hstore & Hsf & Hpf).
    { rewrite store_after_unfold, trace_of_unfold. unfold dispatch_result.
      rewrite Hnt, Hs. destruct (forward_raises e); repeat split. }
    destruct (IH (store_after lower ratio cfg e ev store) Hall)
      as (IH1 & IH2 & IH3).
    rewrite stop_forwards_app, primary_forwards_app, Hsf, Hpf, IH1, IH2.
    repeat split.
    etrans; [exact IH3|]. rewrite Hstore. apply sweep_subseteq.
Qed.

(** A text the admission branch can store. *)
Definition admissible (t : text) : Prop :=
  t ≠ []
  ∧ contains_stop_words lower cfg t = false
  ∧ contains_key_words lower cfg t = true.

Lemma admissible_delivery (e : env) (ev : event) (store : gmap text Z) :
  (∀ k, k ∈ dom store → admissible k) →
  ∀ k, k ∈ dom (store_after lower ratio cfg e ev store) → admissible k.
Proof.
  intros Hstore k Hk.
  assert (∀ k', k' ∈ dom (sweep store (clock e 1)) → admissible k') as Hswept.
  { intros k' Hk'. apply Hstore. apply elem_of_dom in Hk' as [ts Hk'].
    apply lookup_sweep in Hk' as [Hk' _]. apply elem_of_dom. eauto. }
  assert (no_text ev = false → admissible (text_of ev) ∨
            contains_stop_words lower cfg (text_of ev) = true ∨
            contains_key_words lower cfg (text_of ev) = false) as Htext.
  { intros Hnt.
    destruct (contains_stop_words lower cfg (text_of ev)) eqn:Hs; [auto|].
    destruct (contains_key_words lower cfg (text_of ev)) eqn:Hkw; [|auto].
    left. repeat split; try assumption. intros Hnil.
    unfold no_text, text_of in *. destruct (message_text ev) as [t|];
      simpl in *; [subst t|]; discriminate Hnt. }
  delivery e ev store; auto;
    apply elem_of_dom in Hk; rewrite lookup_insert in Hk;
    (destruct (decide (text_of ev = k)) as [<-|Hne];
     [destruct Htext as [H|[H|H]]; [reflexivity|exact H|congruence..]
     |apply Hswept, elem_of_dom; exact Hk]).
Qed.

(** X15. Every text in the store after a run from the empty store is
    non-empty, has no stop word and has a key word. *)
Theorem stored_texts_admissible (inputs : list (env * event)) (k : text) :
  k ∈ dom (run_until_disconnected lower ratio cfg inputs ∅).1.2 →
  k ≠ []
  ∧ contains_stop_words lower cfg k = false
  ∧ contains_key_words lower cfg k = true.
Proof.
  assert (∀ store, (∀ k', k' ∈ dom store → admissible k') →
            ∀ k', k' ∈ dom (run_until_disconnected lower ratio cfg
                              inputs store).1.2 → admissible k') as Hrun.
  { induction inputs as [|[e ev] inputs IH]; intros store Hstore.
    - exact Hstore.
    - rewrite run_cons. simpl. apply IH, admissible_delivery, Hstore. }
  apply Hrun. intros k' Hk'. rewrite dom_empty_L in Hk'.
  apply elem_of_empty in Hk'. destruct Hk'.
Qed.

Lemma size_delivery (e : env) (ev : event) (store : gmap text Z) :
  (size (store_after lower ratio cfg e ev store) <=
   size store + primary_forwards (trace_of lower ratio cfg e ev store))%nat.
Proof.
  pose proof (map_subseteq_size _ _ (sweep_subseteq store (clock e 1)))
    as Hswept.
  assert (∀ t now, (size (<[t := now]> (sweep store (clock e 1)))
                    <= size store + 1)%nat) as Hins.
  { intros t now. rewrite map_size_insert.
    destruct (sweep store (clock e 1) !! t); simpl; lia. }
  delivery e ev store; unfold primary_forwards; simpl;
    try lia; apply Hins.
Qed.

(** X16. The store grows by at most one entry per forward to the primary
    destination, hence by at most one per delivered event. *)
Theorem store_size_bounded
    (inputs : list (env * event)) (store : gmap text Z) :
  (size (run_until_disconnected lower ratio cfg inputs store).1.2 <=
   size store
   + primary_forwards (run_until_disconnected lower ratio cfg inputs store).2)
  %nat
  ∧ (primary_forwards (run_until_disconnected lower ratio cfg inputs store).2
     <= length inputs)%nat.
Proof.
  revert store. induction inputs as [|[e ev] inputs IH]; intros store.
  - simpl. unfold primary_forwards. simpl. lia.
  - rewrite run_cons. simpl. rewrite primary_forwards_app.
    pose proof (size_delivery e ev store) as Hstep.
    destruct (IH (store_after lower ratio cfg e ev store)) as [IH1 IH2].
    assert (primary_forwards (trace_of lower ratio cfg e ev store) <= 1)%nat
      as Hone.
    { clear. delivery e ev store; unfold primary_forwards; simpl; lia. }
    lia.
Qed.

Lemma provenance_delivery (e : env) (ev : event) (store : gmap text Z)
    (k : text) (ts : Z) :
  store_after lower ratio cfg e ev store !! k = Some ts →
  store !! k = Some ts
  ∨ (no_text ev = false ∧ k = text_of ev ∧ ts = clock e 2).
Proof.
  intros Hk.
  assert (sweep store (clock e 1) !! k = Some ts → store !! k = Some ts)
    as Hswept by (intros H; apply lookup_sweep in H as [H _]; exact H).
  delivery e ev store; auto;
    rewrite lookup_insert in Hk;
    (destruct (decide (text_of ev = k)) as [<-|Hne];
     [injection Hk as <-; auto|auto]).
Qed.

(** X17. Every entry of the store after a run is an entry of the store
    before the run, or holds the raw text of a delivered message with
    text, under the admission reading of the clock of that delivery. *)
Theorem stored_entries_provenance
    (inputs : list (env * event)) (store : gmap text Z) (k : text) (ts : Z) :
  (run_until_disconnected lower ratio cfg inputs store).1.2 !! k = Some ts →
  store !! k = Some ts
  ∨ ∃ e ev, (e, ev) ∈ inputs
            ∧ message_text ev = Some k
            ∧ ts = clock e 2.
Proof.
  revert store. induction inputs as [|[e ev] inputs IH]; intros store Hk.
  - left. exact Hk.
  - rewrite run_cons in Hk. simpl in Hk.
    destruct (IH _ Hk) as [Hstep|(e' & ev' & Hin & Htext & Hts)].
    + destruct (provenance_delivery e ev store k ts Hstep)
        as [Hold|(Hnt & -> & ->)]; [left; exact Hold|].
      right. exists e, ev. split; [left|]. split; [|reflexivity].
      unfold no_text, text_of in *. destruct (message_text ev) as [t|];
        [reflexivity|discriminate Hnt].
    + right. exists e', ev'. split; [right; exact Hin|]. auto.
Qed.

(** X18. A message without text, [None] or the empty string, is only
    logged: nothing is forwarded, nothing sleeps, and the store is not
    even swept, so entries past the retention period stay until the next
    message with text. *)
Theorem no_text_delivery_inert
    (e : env) (ev : event) (store : gmap text Z) :
  (no_text ev = true ↔
   message_text ev = None ∨ message_text ev = Some [])
  ∧ (no_text ev = true →
     dispatch lower ratio cfg e ev store =
       (inr tt, store,
        [Log (clock e 0) (LogReceived (chat_id ev));
         Log (clock e 1) LogNoText])).
Proof.
  split.
  - unfold no_text. destruct (message_text ev) as [[|c t]|]; simpl.
    + split; auto.
    + split; [discriminate|]. intros [H|H]; discriminate H.
    + split; auto.
  - intros Hnt. rewrite dispatch_unfold. unfold dispatch_result.
    rewrite Hnt. reflexivity.
Qed.

End Deliveries.

(** ** The further properties at concrete inputs *)

(** A configuration whose only stop word is a single space. *)
Definition blank_stop_config : config :=
  {| API_ID := PyInt 12345;
     API_HASH := PyStr (str "0123456789abcdef");
     SESSION := PyStr (str "relay");
     DESTINATION := PyInt (-1001);
     STOP_WORDS_DESTINATION := PyInt (-1002);
     CHATS := PyInts [100];
     KEY_WORDS := [str "deal"];
     STOP_WORDS := [str " "] |}.

(** The stop words of [demo_config] with a second word, repeated and in
    another order. *)
Definition two_stop_words (words : list text) : config :=
  {| API_ID := PyInt 12345;
     API_HASH := PyStr (str "0123456789abcdef");
     SESSION := PyStr (str "relay");
     DESTINATION := PyInt (-1001);
     STOP_WORDS_DESTINATION := PyInt (-1002);
     CHATS := PyInts [100];
     KEY_WORDS := [str "deal"];
     STOP_WORDS := words |}.

(** X3: the stop word " " passes validation and sends "hello" to the
    stop-words destination. *)
Lemma blank_word_matches_everything_witness :
  remove_spaces (ascii_lower (str " ")) = []
  ∧ validate_config blank_stop_config = inr tt
  ∧ contains_stop_words ascii_lower blank_stop_config (str "hello") = true.
Proof.
  assert (remove_spaces (ascii_lower (str " ")) = []) as H by reflexivity.
  split; [exact H|]. split; [reflexivity|].
  apply (blank_word_matches_everything ascii_lower blank_stop_config
           (str " ") (str "hello") H).
  left.
Defined.

(** X4: a repeated and reordered list of stop words changes nothing. *)
Lemma word_lists_as_sets_witness :
  (∀ w, w ∈ [str "scam"; str "fraud"; str "scam"] ↔
        w ∈ [str "fraud"; str "scam"])
  ∧ contains_stop_words ascii_lower
      (two_stop_words [str "scam"; str "fraud"; str "scam"])
      (str "a fraud") =
    contains_stop_words ascii_lower
      (two_stop_words [str "fraud"; str "scam"]) (str "a fraud").
Proof.
  assert (∀ w, w ∈ [str "scam"; str "fraud"; str "scam"] ↔
               w ∈ [str "fraud"; str "scam"]) as H.
  { intros w. rewrite !elem_of_cons. tauto. }
  split; [exact H|].
  exact (proj1 (word_lists_as_sets ascii_lower
                  (two_stop_words [str "scam"; str "fraud"; str "scam"])
                  (two_stop_words [str "fraud"; str "scam"])
                  (str "a fraud")) H).
Defined.

(** X8: a text similar in a store of one entry is similar in a larger
    store with other timestamps. *)
Lemma is_similar_by_keys_witness :
  dom ({[ str "great deal" := 0 ]} : gmap text Z)
    ⊆ dom (<[ str "cheap shoes" := 7 ]> {[ str "great deal" := 5 ]}
           : gmap text Z)
  ∧ is_similar indel_ratio {[ str "great deal" := 0 ]} (str "great deal!")
    = true
  ∧ is_similar indel_ratio
      (<[ str "cheap shoes" := 7 ]> {[ str "great deal" := 5 ]})
      (str "great deal!") = true.
Proof.
  assert (dom ({[ str "great deal" := 0 ]} : gmap text Z)
            ⊆ dom (<[ str "cheap shoes" := 7 ]> {[ str "great deal" := 5 ]}
                   : gmap text Z)) as H1.
  { rewrite dom_insert_L, !dom_singleton_L. set_solver. }
  assert (is_similar indel_ratio {[ str "great deal" := 0 ]}
            (str "great deal!") = true) as H2 by (vm_compute; reflexivity).
  split; [exact H1|]. split; [exact H2|].
  exact (is_similar_by_keys indel_ratio _ _ _ H1 H2).
Defined.

(** X10: "hello" is dropped for want of a key word. *)
Lemma no_key_words_drop_witness :
  demo_dispatch (at_time 1000) (message "hello") ∅ =
  (inr tt, sweep ∅ 1001,
   [Log 1000 (LogReceived 100); Log 1002 LogNoKeyWords]).
Proof.
  apply (no_key_words_drop ascii_lower indel_ratio demo_config
           (at_time 1000) (message "hello") ∅);
    vm_compute; reflexivity.
Defined.

(** X11: the forward of "great deal" raises, and the trace has the
    cooldown. *)
Lemma cooldown_iff_forward_failed_witness :
  Sleep 60 ∈ demo_trace (failing_at 1000) (message "great deal") ∅.
Proof.
  apply (proj1 (cooldown_iff_forward_failed ascii_lower indel_ratio
                  demo_config (failing_at 1000) (message "great deal") ∅)).
  exists (TransportError "FloodWaitError"), ToDESTINATION.
  split; [reflexivity|].
  replace (demo_trace (failing_at 1000) (message "great deal") ∅)
    with [Log 1000 (LogReceived 100);
          Forward ToDESTINATION (message "great deal");
          Log 1003 (LogError (TransportError "FloodWaitError"));
          Sleep 60] by (vm_compute; reflexivity).
  right. left.
Defined.

(** X12: the forward of "great deal" raises; the text is stored at 1002
    and its repetition an hour later is dropped. *)
Lemma failed_forward_still_admits_witness :
  demo_store (failing_at 1000) (message "great deal") ∅
    !! str "great deal" = Some 1002
  ∧ demo_trace (at_time 3600000000) (message "great deal")
      (demo_store (failing_at 1000) (message "great deal") ∅) =
    [Log 3600000000 (LogReceived 100); Log 3600000002 LogSimilar].
Proof.
  destruct (failed_forward_still_admits ascii_lower indel_ratio demo_config
              (failing_at 1000) (message "great deal") ∅
              (TransportError "FloodWaitError"))
    as (Hstore & _ & Hnext); try (vm_compute; reflexivity).
  split; [exact Hstore|].
  apply (Hnext (at_time 3600000000) (message "great deal"));
    try (vm_compute; reflexivity).
  - apply Qle_bool_iff. vm_compute. reflexivity.
  - vm_compute. discriminate.
Defined.

(** X14: the same message with a stop word, delivered twice, is forwarded
    twice. *)
Lemma stop_messages_always_forwarded_witness :
  stop_forwards
    (demo_run [(at_time 1000, message "a scam"); (at_time 2000, message "a scam")]
       ∅).2 = 2%nat.
Proof.
  assert (no_text (message "a scam") = false
          ∧ contains_stop_words ascii_lower demo_config
              (text_of (message "a scam")) = true) as H
    by (split; vm_compute; reflexivity).
  assert (Forall (λ p : env * event,
                    no_text p.2 = false
                    ∧ contains_stop_words ascii_lower demo_config
                        (text_of p.2) = true)
            [(at_time 1000, message "a scam");
             (at_time 2000, message "a scam")]) as Hall.
  { apply List.Forall_cons; [exact H|].
    apply List.Forall_cons; [exact H|]. apply List.Forall_nil. }
  exact (proj1 (stop_messages_always_forwarded ascii_lower indel_ratio
                  demo_config
                  [(at_time 1000, message "a scam");
                   (at_time 2000, message "a scam")] ∅ Hall)).
Defined.

(** X15: "great deal" is in the store after three deliveries, and it has
    a key word and no stop word. *)
Lemma stored_texts_admissible_witness :
  str "great deal" ∈
    dom (demo_run
           [(at_time 1000, message "great deal");
            (at_time 2000, message "great deal!");
            (at_time 3000, message "cheap shoes deal")] ∅).1.2
  ∧ contains_key_words ascii_lower demo_config (str "great deal") = true.
Proof.
  assert (str "great deal" ∈
            dom (demo_run
                   [(at_time 1000, message "great deal");
                    (at_time 2000, message "great deal!");
                    (at_time 3000, message "cheap shoes deal")] ∅).1.2) as H.
  { apply elem_of_dom. exists 1002. vm_compute. reflexivity. }
  split; [exact H|].
  exact (proj2 (proj2 (stored_texts_admissible ascii_lower indel_ratio
                         demo_config _ _ H))).
Defined.

(** X17: the entry for "great deal" after a run from the empty store
    comes from the first delivery. *)
Lemma stored_entries_provenance_witness :
  (demo_run
     [(at_time 1000, message "great deal");
      (at_time 2000, message "great deal!")] ∅).1.2
    !! str "great deal" = Some 1002
  ∧ ((∅ : gmap text Z) !! str "great deal" = Some 1002
     ∨ ∃ e ev, (e, ev) ∈ [(at_time 1000, message "great deal");
                          (at_time 2000, message "great deal!")]
               ∧ message_text ev = Some (str "great deal")
               ∧ 1002 = clock e 2).
Proof.
  assert ((demo_run
             [(at_time 1000, message "great deal");
              (at_time 2000, message "great deal!")] ∅).1.2
            !! str "great deal" = Some 1002) as H
    by (vm_compute; reflexivity).
  split; [exact H|].
  exact (stored_entries_provenance ascii_lower indel_ratio demo_config
           _ _ _ _ H).
Defined.

(** X18: a message without text leaves an entry of two days ago in the
    store. *)
Lemma no_text_delivery_inert_witness :
  no_text (Event 100 (Some [])) = true
  ∧ demo_dispatch (at_time (2 * FILTER_DURATION)) (Event 100 (Some []))
      {[ str "great deal" := 0 ]} =
    (inr tt, {[ str "great deal" := 0 ]},
     [Log (clock (at_time (2 * FILTER_DURATION)) 0) (LogReceived 100);
      Log (clock (at_time (2 * FILTER_DURATION)) 1) LogNoText]).
Proof.
  assert (no_text (Event 100 (Some [])) = true) as H by reflexivity.
  split; [exact H|].
  exact (proj2 (no_text_delivery_inert ascii_lower indel_ratio demo_config
                  (at_time (2 * FILTER_DURATION)) (Event 100 (Some []))
                  {[ str "great deal" := 0 ]}) H).
Defined.

(** * The start of the script *)

(** ** Loading the module *)

(** The namespace of [config.py]: the names it defines, with their
    values; the first binding of a name counts. *)
Definition namespace : Type := list (string * pyvalue).

Fixpoint getattr (ns : namespace) (name : string) : option pyvalue :=
  match ns with
  | [] => None
  | (n, v) :: ns' => if String.eqb n name then Some v else getattr ns' name
  end.

(** [from config import name]: a name that [config.py] lacks raises
    [ImportError]. *)
Definition import_name (ns : namespace) (name : string)
  : exception + pyvalue :=
  match getattr ns name with
  | Some v => inr v
  | None => inl (ImportError name)
  end.

(** The iteration of [{word.lower() for word in words}]: the strings it
    runs over, or the exception it raises. A string is iterated character
    by character; integers have no [lower]. *)
Definition iter_words (words : pyvalue) : exception + list text :=
  match words with
  | PyNone => inl (TypeError "'NoneType' object is not iterable")
  | PyInt _ => inl (TypeError "'int' object is not iterable")
  | PyStr s => inr (List.map (fun c => [c]) s)
  | PyInts [] => inr []
  | PyInts (_ :: _) =>
      inl (AttributeError "'int' object has no attribute 'lower'")
  | PyStrs l => inr l
  end.

Definition and_then {A B : Type} (r : exception + A)
    (k : A → exception + B) : exception + B :=
  match r with
  | inl ex => inl ex
  | inr a => k a
  end.

(** The statements the module runs when it is loaded, in their order:
    the import of the eight names, the construction of the client, and
    the two sets of lowered words. [client_init] is the constructor
    [TelegramClient(SESSION, API_ID, API_HASH)] of the library: it
    returns the exception it raises, if any. *)
Definition load_module
    (client_init : pyvalue → pyvalue → pyvalue → option exception)
    (ns : namespace) : exception + config :=
  and_then (import_name ns "DESTINATION") (fun destination =>
  and_then (import_name ns "STOP_WORDS_DESTINATION") (fun stop_destination =>
  and_then (import_name ns "API_ID") (fun api_id =>
  and_then (import_name ns "API_HASH") (fun api_hash =>
  and_then (import_name ns "SESSION") (fun session =>
  and_then (import_name ns "CHATS") (fun chats =>
  and_then (import_name ns "KEY_WORDS") (fun key_words =>
  and_then (import_name ns "STOP_WORDS") (fun stop_words =>
  match client_init session api_id api_hash with
  | Some ex => inl ex
  | None =>
      and_then (iter_words stop_words) (fun stop =>
      and_then (iter_words key_words) (fun key =>
      inr {| API_ID := api_id;
             API_HASH := api_hash;
             SESSION := session;
             DESTINATION := destination;
             STOP_WORDS_DESTINATION := stop_destination;
             CHATS := chats;
             KEY_WORDS := key;
             STOP_WORDS := stop |}))
  end)))))))).

(** The script run as a program: the module is loaded, then
    [validate_config()], then [asyncio.run(main())]. *)
Definition script (lower : text → text) (ratio : text → text → Q)
    (client_init : pyvalue → pyvalue → pyvalue → option exception)
    (ns : namespace) (inputs : list (env * event))
  : (exception + unit) * gmap text Z * list action :=
  match load_module client_init ns with
  | inl ex => (inl ex, ∅, [])
  | inr cfg =>
      match validate_config cfg with
      | inl ex => (inl ex, ∅, [])
      | inr _ => main lower ratio cfg inputs
      end
  end.

(** Telethon's constructor refuses a falsy API id or hash. *)
Definition telethon_client (session api_id api_hash : pyvalue)
  : option exception :=
  if truthy api_id && truthy api_hash then None
  else Some (ClientError "Your API ID or Hash cannot be empty or None").

(** The [config.py] of the examples. *)
Definition demo_namespace : namespace :=
  [ ("API_ID", PyInt 12345);
    ("API_HASH", PyStr (str "0123456789abcdef"));
    ("SESSION", PyStr (str "relay"));
    ("DESTINATION", PyInt (-1001));
    ("STOP_WORDS_DESTINATION", PyInt (-1002));
    ("CHATS", PyInts [100]);
    ("KEY_WORDS", PyStrs [str "deal"]);
    ("STOP_WORDS", PyStrs [str "scam"]) ]%string.

(** [config.py] with one setting changed. *)
Definition setting (name : string) (value : pyvalue) (ns : namespace)
  : namespace := (name, value) :: ns.

(** [config.py] without one setting. *)
Definition without (name : string) (ns : namespace) : namespace :=
  List.filter (fun p => negb (String.eqb p.1 name)) ns.

Abbreviation demo_script :=
  (script ascii_lower indel_ratio telethon_client).

(** ** The spec's matching *)

(** The spec's [normalize]: the text is lowercased and every whitespace
    character is deleted. *)
Definition spec_normalize (lower : text → text) (t : text) : text :=
  List.filter (fun c => negb (isspace c)) (lower t).

(** The spec's [containsStopPhrase]: some stop phrase, normalized, occurs
    in the normalized text. *)
Definition spec_containsStopPhrase (lower : text → text) (cfg : config)
    (t : text) : bool :=
  existsb
    (fun phrase => str_in (spec_normalize lower phrase) (spec_normalize lower t))
    (STOP_WORDS cfg).

(** The text "sc<TAB>am deal". *)
Definition tabbed_scam_deal : event :=
  {| chat_id := 100;
     message_text :=
       Some [115; 99; 9; 97; 109; 32; 100; 101; 97; 108]%N |}.

(** One event waiting to be delivered. *)
Definition one_offer : list (env * event) :=
  [(at_time 1000, message "great deal")].

(** The globals of the module when [API_HASH] is the empty string. *)
Definition empty_hash_config : config :=
  {| API_ID := PyInt 12345;
     API_HASH := PyStr [];
     SESSION := PyStr (str "relay");
     DESTINATION := PyInt (-1001);
     STOP_WORDS_DESTINATION := PyInt (-1002);
     CHATS := PyInts [100];
     KEY_WORDS := [str "deal"];
     STOP_WORDS := [str "scam"] |}.

(** ** Properties of the start *)

Lemma load_module_words
    (client_init : pyvalue → pyvalue → pyvalue → option exception)
    (ns : namespace) (cfg : config) :
  load_module client_init ns = inr cfg →
  ∃ key_words stop_words,
    getattr ns "KEY_WORDS" = Some key_words
    ∧ iter_words key_words = inr (KEY_WORDS cfg)
    ∧ getattr ns "STOP_WORDS" = Some stop_words
    ∧ iter_words stop_words = inr (STOP_WORDS cfg).
Proof.
  unfold load_module, import_name, and_then. intros Hload.
  repeat match type of Hload with
         | context [getattr ns ?n] =>
             destruct (getattr ns n) eqn:?; [|discriminate Hload]
         end.
  destruct (client_init _ _ _); [discriminate Hload|].
  match type of Hload with
  | context [iter_words ?v] =>
      destruct (iter_words v) eqn:Hstop; [discriminate Hload|]
  end.
  match type of Hload with
  | context [iter_words ?v] =>
      destruct (iter_words v) eqn:Hkey; [discriminate Hload|]
  end.
  injection Hload as <-. simpl. eexists _, _. repeat split; eassumption.
Qed.

Lemma iter_words_empty (words : list text) :
  iter_words (PyStrs []) = inr words → words = [].
Proof. intros H. injection H as <-. reflexivity. Qed.

(** C8. The script at three configurations in which a required setting
    is empty or missing: the program ends before [validate_config] is
    called, with an error that is not the [ValueError] of
    [validate_config]: a [TypeError] of the set comprehension for
    [KEY_WORDS = None], the error of the client constructor for an empty
    [API_HASH], where [validate_config] on the same values names
    [API_HASH], and an [ImportError] for a missing [CHATS]. An empty
    list of key words does reach [validate_config], which names it. In
    no case is an event delivered. *)
Theorem startup_fails_before_validation :
  demo_script (setting "KEY_WORDS" PyNone demo_namespace) one_offer =
    (inl (TypeError "'NoneType' object is not iterable"), ∅, [])
  ∧ demo_script (setting "API_HASH" (PyStr []) demo_namespace) one_offer =
    (inl (ClientError "Your API ID or Hash cannot be empty or None"), ∅, [])
  ∧ validate_config empty_hash_config = inl (ValueError "API_HASH")
  ∧ demo_script (without "CHATS" demo_namespace) one_offer =
    (inl (ImportError "CHATS"), ∅, [])
  ∧ demo_script (setting "KEY_WORDS" (PyStrs []) demo_namespace) one_offer =
    (inl (ValueError "KEY_WORDS"), ∅, [])
  ∧ demo_script demo_namespace one_offer = demo_run one_offer ∅.
Proof. repeat split; vm_compute; reflexivity. Qed.


(** C1, as the claim has it, fails: "sc<TAB>am deal" contains the stop
    phrase "scam" when all whitespace is ignored, but the matcher of the
    code ignores U+0020 only; the message is forwarded to the primary
    destination and added to the store. *)
Lemma tab_hides_stop_word :
  no_text tabbed_scam_deal = false
  ∧ spec_containsStopPhrase ascii_lower demo_config
      (text_of tabbed_scam_deal) = true
  ∧ contains_stop_words ascii_lower demo_config
      (text_of tabbed_scam_deal) = false
  ∧ demo_dispatch (at_time 1000) tabbed_scam_deal ∅ =
    (inr tt, {[ text_of tabbed_scam_deal := 1002 ]},
     [Log 1000 (LogReceived 100);
      Forward ToDESTINATION tabbed_scam_deal;
      Log 1003 (LogForwarded (text_of tabbed_scam_deal));
      Sleep 2]).
Proof. repeat split; vm_compute; reflexivity. Qed.

